(** * The reviews worker (cf-reviews-worker/src/index.js)

    A shallow embedding of the worker's request handler, its token
    acquisition, its pagination loop and its normalisation and ordering of
    review records, followed by the properties proved about them.

    JavaScript values are modelled by what the worker does with them:
    an optional string is [option string] ([None] stands for [undefined]
    and [null]), a number that is always integral is a [Z], the result of
    [Number(s)] is a [number], and a thrown [Error] is a constructor of
    [Error] whose [message] is the string the source builds. *)

From stdpp Require Import base strings gmap list sorting pretty.
From Stdlib Require Import Ascii ZArith QArith.
From Equations Require Import Equations.

Local Open Scope string_scope.
Local Open Scope Z_scope.
Local Open Scope list_scope.

(** ** JavaScript built-ins used by the worker *)

Module Js.

(** The result of [Number(s)]: a double is NaN, an infinity or a finite
    rational. *)
Inductive number : Type :=
  | NaN
  | Infinity (negative : bool)
  | Finite (q : Q).

Definition isFinite (n : number) : bool :=
  match n with Finite _ => true | _ => false end.

(** [Math.trunc] on a finite number: rounding towards zero. *)
Definition trunc (q : Q) : Z := Z.quot (Qnum q) (Zpos (Qden q)).

(** The time value of a [Date]: NaN for an invalid date, otherwise
    integral milliseconds since the epoch.  The same shape serves for
    the [time] field computed from it. *)
Inductive instant : Type :=
  | Invalid
  | At (t : Z).

(** [a >= b] on such numbers: false as soon as one is NaN. *)
Definition ge (a b : instant) : bool :=
  match a, b with
  | At x, At y => y <=? x
  | _, _ => false
  end.

(** Truthiness of a string that may be missing: [undefined], [null] and
    the empty string are falsy. *)
Definition truthy (v : option string) : bool :=
  match v with
  | Some s => negb (String.eqb s "")
  | None => false
  end.

(** [a || b] on strings that may be missing. *)
Definition or (a b : option string) : option string :=
  if truthy a then a else b.

(** [a || "literal"]. *)
Definition or_default (a : option string) (d : string) : string :=
  match or a (Some d) with Some s => s | None => d end.

Fixpoint startsWith (p s : string) : bool :=
  match p, s with
  | EmptyString, _ => true
  | String a p', String b s' => Ascii.eqb a b && startsWith p' s'
  | String _ _, EmptyString => false
  end.

(** [s.includes(p)]. *)
Fixpoint includes (s p : string) : bool :=
  startsWith p s ||
  match s with
  | EmptyString => false
  | String _ s' => includes s' p
  end.

(** [l.slice(0, e)]: a negative end counts from the end of the array. *)
Definition slice0 {A} (l : list A) (e : Z) : list A :=
  if e <? 0 then take (Z.to_nat (Z.max (Z.of_nat (length l) + e) 0)) l
  else take (Z.to_nat e) l.

(** [Array.prototype.sort] with a comparator: the sort is stable, so for
    a comparator that is a difference of keys its result is the one an
    insertion sort gives that keeps an element in front of the elements
    it was in front of unless the comparator is positive. *)
Section Sort.
Context {A : Type} (cmp : A → A → Z).

Fixpoint insert (x : A) (l : list A) : list A :=
  match l with
  | [] => [x]
  | y :: l' => if cmp x y <=? 0 then x :: y :: l' else y :: insert x l'
  end.

Definition sort (l : list A) : list A := foldr insert [] l.
End Sort.

(** A property read on an object literal: its own properties first, then
    those of [Object.prototype]. *)
Inductive value : Type :=
  | Undefined
  | Num (n : Z)
  | Inherited (name : string).

Definition Object_prototype : gset string :=
  list_to_set
    [ "constructor"; "__defineGetter__"; "__defineSetter__";
      "hasOwnProperty"; "__lookupGetter__"; "__lookupSetter__";
      "isPrototypeOf"; "propertyIsEnumerable"; "toString"; "valueOf";
      "__proto__"; "toLocaleString" ].

Definition get (own : gmap string Z) (key : string) : value :=
  match own !! key with
  | Some n => Num n
  | None => if decide (key ∈ Object_prototype) then Inherited key else Undefined
  end.

(** The property key an optional string converts to. *)
Definition property_key (k : option string) : string :=
  match k with Some s => s | None => "undefined" end.

(** [v || 0]: zero and [undefined] are falsy, functions and objects are
    truthy. *)
Definition or_zero (v : value) : value :=
  match v with
  | Undefined => Num 0
  | Num 0 => Num 0
  | _ => v
  end.

End Js.

(** ** The platform: conversions the runtime provides *)

Class Platform : Type := {
(** [Number(s)] *)
  Number : string → Js.number;
(** the time value of [new Date(s)] *)
  Date_getTime : string → Js.instant;
}.

(** ** Pure helpers of the worker *)

Section Helpers.
Context `{Platform}.

Definition clampInt (value : string) (min max : Z) : Z :=
  match Number value with
  | Js.Finite q => Z.max min (Z.min max (Js.trunc q))
  | _ => min
  end.

End Helpers.

Definition star_map : gmap string Z :=
  {[ "ONE" := 1; "TWO" := 2; "THREE" := 3; "FOUR" := 4; "FIVE" := 5 ]}.

Definition starEnumToNumber (starRating : option string) : Js.value :=
  Js.or_zero (Js.get star_map (Js.property_key starRating)).

(** ** Data of the worker *)

(** The worker's environment: secrets and variables, each possibly unset. *)
Record Env : Type := {
  ALLOWED_ORIGIN : option string;
  GOOGLE_OAUTH_CLIENT_ID : option string;
  GOOGLE_OAUTH_CLIENT_SECRET : option string;
  GOOGLE_OAUTH_REFRESH_TOKEN : option string;
  GBP_ACCOUNT_ID : option string;
  GBP_LOCATION_ID : option string;
}.

(** A review as the listing endpoint returns it. *)
Module Raw.
Record Reviewer : Type := {
    displayName : option string;
    profilePhotoUrl : option string;
  }.

Record Review : Type := {
    reviewId : option string;
    reviewer : option Reviewer;
    starRating : option string;
    comment : option string;
    createTime : option string;
    updateTime : option string;
  }.
End Raw.

(** A review as the worker returns it.  [time] is NaN ([Js.Invalid]) when
    the creation timestamp does not parse. *)
Record Review : Type := {
  reviewId : option string;
  author_name : string;
  profile_photo_url : string;
  rating : Js.value;
  time : Js.instant;
  text : string;
  createTime : option string;
  updateTime : option string;
}.

(** The fields the worker reads in a JSON body. *)
Record Json : Type := {
  access_token : option string;
  reviews : option (list Raw.Review);
  nextPageToken : option string;
}.

(** What [resp.json()] settles to. *)
Inductive Parsed : Type :=
| SyntaxError (msg : string)
| Body (j : Json).

Record Response : Type := {
  status : Z;
  body_text : string;
  body_json : Parsed;
}.

(** [resp.ok] *)
Definition ok (r : Response) : bool := (200 <=? status r) && (status r <=? 299).

(** The two outbound requests the worker issues. *)
Inductive Request : Type :=
| TokenRequest (client_id client_secret refresh_token : string)
| ListRequest (accountId locationId : string) (pageSize : Z)
  (pageToken : option string) (bearer : string).

(** What the global [fetch] settles to. *)
Inductive Reply : Type :=
| Rejects (reason : string)
| Responds (r : Response).

(** One constructor per [throw] site, and one for what the runtime
    rejects with. *)
Inductive Error : Type :=
| MissingSecrets
| TokenRefreshFailed (status : Z) (text : string)
| NoAccessToken
| MissingIds
| ListFailed (status : Z) (text : string)
| Runtime (msg : string).

Definition message (e : Error) : string :=
  match e with
  | MissingSecrets => "Missing OAuth secrets in Worker env."
  | TokenRefreshFailed s t => "OAuth token refresh failed: " +:+ pretty s +:+ " " +:+ t
  | NoAccessToken => "OAuth token refresh returned no access_token."
  | MissingIds =>
      "Missing/placeholder accountId or locationId. Provide ?accountId=...&locationId=... or set Worker vars."
  | ListFailed s t => "GBP reviews list failed: " +:+ pretty s +:+ " " +:+ t
  | Runtime m => m
  end.

Inductive Outcome (A : Type) : Type :=
| Return (a : A)
| Throw (e : Error).
Arguments Return {A} a.
Arguments Throw {A} e.

(** What an iteration of the pagination loop leaves behind. *)
Inductive Iter : Type :=
| Next (all : list Raw.Review) (pageToken : option string)
| Stop (all : list Raw.Review).

(** The inbound request, its URL already parsed. *)
Record HttpRequest : Type := {
  method : string;
  pathname : string;
  searchParams : list (string * string);
}.

Inductive ResponseBody : Type :=
| NoBody
| PlainText (s : string)
| JsonReviews (reviews : list Review)
| JsonError (error : string).

Record HttpResponse : Type := {
  resp_body : ResponseBody;
  resp_status : Z;
  resp_headers : list (string * string);
}.

(** [url.searchParams.get(name)]: the first value under the name. *)
Fixpoint searchParams_get (ps : list (string * string)) (name : string) : option string :=
  match ps with
  | [] => None
  | (k, v) :: ps' => if String.eqb k name then Some v else searchParams_get ps' name
  end.

Definition corsResponse (body : ResponseBody) (env : Env) (status : Z)
    (headers : list (string * string)) : HttpResponse :=
  let allowed := Js.or_default (ALLOWED_ORIGIN env) "*" in
  {| resp_body := body;
     resp_status := status;
     resp_headers :=
       headers ++
       [ ("Access-Control-Allow-Origin", allowed);
         ("Access-Control-Allow-Methods", "GET,OPTIONS");
         ("Access-Control-Allow-Headers", "Content-Type,Authorization");
         ("Access-Control-Max-Age", "86400") ] |}.

(** ** Normalisation and ordering

    [Math.floor(ms / 1000)] is the integer quotient [ms `div` 1000]: a time
    value is an integer of magnitude at most 8.64e15, so its quotient by
    1000, when it is not an integer, lies at least 1/1000 from the nearest
    one, which is more than the rounding of the division can move it. *)

Section Normalize.
Context `{Platform}.

Definition normalize (r : Raw.Review) : Review :=
  let rating := starEnumToNumber (Raw.starRating r) in
  let createTime :=
    if Js.truthy (Raw.createTime r)
    then Some (Date_getTime (default "" (Raw.createTime r)))
    else None in
  {| reviewId := Raw.reviewId r;
     author_name := Js.or_default (Raw.reviewer r ≫= Raw.displayName) "Anonymous";
     profile_photo_url := Js.or_default (Raw.reviewer r ≫= Raw.profilePhotoUrl) "";
     rating := rating;
     time :=
       match createTime with
       | Some (Js.At ms) => Js.At (ms `div` 1000)
       | Some Js.Invalid => Js.Invalid
       | None => Js.At 0
       end;
     text := Js.or_default (Raw.comment r) "";
     createTime := Js.or (Raw.createTime r) None;
     updateTime := Js.or (Raw.updateTime r) None |}.

End Normalize.

(** [x || 0] on a [time]. *)
Definition time_or_zero (t : Js.instant) : Z :=
  match t with Js.At z => z | Js.Invalid => 0 end.

(** The comparator of the final sort. *)
Definition newest_first (a b : Review) : Z :=
  time_or_zero (time b) - time_or_zero (time a).

(** ** The pipeline

    Network calls are answered by an upstream with a state of its own; the
    worker's state is the upstream's and the log of the exchanges so far. *)

Record State (W : Type) : Type := {
  world : W;
  log : list (Request * Reply);
}.
Arguments world {W} s.
Arguments log {W} s.

Definition M (W A : Type) : Type := State W → Outcome A * State W.

Definition ret {W A} (a : A) : M W A := λ st, (Return a, st).

Definition throw {W A} (e : Error) : M W A := λ st, (Throw e, st).

Definition bind {W A B} (m : M W A) (k : A → M W B) : M W B :=
  λ st,
    match m st with
    | (Return a, st') => k a st'
    | (Throw e, st') => (Throw e, st')
    end.

(** Matching on a value while keeping the equation that gives it. *)
Definition inspect {A : Type} (x : A) : { y : A | x = y } := exist _ x eq_refl.

Notation "x <- m ;; k" := (bind m (λ x, k))
  (at level 100, m at next level, right associativity, only parsing).

Section Pipeline.
Context `{Platform} {W : Type} (upstream : W → Request → Reply * W).

(** [await fetch(...)] *)
Definition net_fetch (rq : Request) : M W Response :=
  λ st,
    let '(reply, w') := upstream (world st) rq in
    let st' := {| world := w'; log := log st ++ [(rq, reply)] |} in
    match reply with
    | Responds r => (Return r, st')
    | Rejects reason => (Throw (Runtime reason), st')
    end.

(** [await resp.json()] *)
Definition resp_json (r : Response) : M W Json :=
  match body_json r with
  | Body j => ret j
  | SyntaxError msg => throw (Runtime msg)
  end.

Definition getAccessToken (env : Env) : M W string :=
  let clientId := GOOGLE_OAUTH_CLIENT_ID env in
  let clientSecret := GOOGLE_OAUTH_CLIENT_SECRET env in
  let refreshToken := GOOGLE_OAUTH_REFRESH_TOKEN env in
  if negb (Js.truthy clientId) || negb (Js.truthy clientSecret)
     || negb (Js.truthy refreshToken)
  then throw MissingSecrets
  else
    resp <- net_fetch (TokenRequest (default "" clientId) (default "" clientSecret)
                                   (default "" refreshToken));;
    if negb (ok resp) then throw (TokenRefreshFailed (status resp) (body_text resp))
    else
      json <- resp_json resp;;
      if negb (Js.truthy (access_token json)) then throw NoAccessToken
      else ret (default "" (access_token json)).

Section Loop.
Context (limit : Z) (accountId locationId accessToken : string).

(** The body of the [while] loop, entered with [all.length < limit]. *)
Definition loop_body (all : list Raw.Review) (pageToken : option string) : M W Iter :=
  resp <- net_fetch (ListRequest accountId locationId
                      (Z.min 50 (limit - Z.of_nat (length all)))
                      (Js.or pageToken None) accessToken);;
  if negb (ok resp) then throw (ListFailed (status resp) (body_text resp))
  else
    json <- resp_json resp;;
    let reviews := default [] (reviews json) in
    let all := all ++ reviews in
    let pageToken := nextPageToken json in
    if negb (Js.truthy pageToken) || (Z.of_nat (length reviews) =? 0)
    then ret (Stop all)
    else ret (Next all pageToken).

(** The loop test followed by the body. *)
Definition iteration (all : list Raw.Review) (pageToken : option string) : M W Iter :=
  if Z.of_nat (length all) <? limit then loop_body all pageToken else ret (Stop all).

(** The [while] loop: it goes on while an iteration asks for the next. *)
Equations paginate (all : list Raw.Review) (pageToken : option string) (st : State W)
  : Outcome (list Raw.Review) * State W
  by wf (Z.to_nat (limit - Z.of_nat (length all))) lt :=
  paginate all pageToken st with inspect (iteration all pageToken st) := {
    | exist _ (Return (Next all' pageToken'), st') Hit => paginate all' pageToken' st'
    | exist _ (Return (Stop all'), st') _ => (Return all', st')
    | exist _ (Throw e, st') _ => (Throw e, st')
  }.
Next Obligation.
  revert Hit.
  unfold iteration, loop_body, bind, net_fetch, resp_json, ret, throw.
  destruct (Z.ltb_spec (Z.of_nat (length all)) limit) as [Hlt|]; [|congruence].
  destruct (upstream (world st) _) as [[reason|resp] w']; [congruence|].
  destruct (negb (ok resp)); [congruence|].
  destruct (body_json resp) as [msg|json]; [congruence|].
  destruct (negb (Js.truthy (nextPageToken json))); simpl; [congruence|].
  destruct (Z.eqb_spec (Z.of_nat (length (default [] (reviews json)))) 0);
    [congruence|].
  intros [= <- _ _]. rewrite length_app. lia.
Qed.

End Loop.

Definition fetchLatestReviews (env : Env) (limit : Z) (accountId locationId : option string)
  : M W (list Review) :=
  accessToken <- getAccessToken env;;
  if negb (Js.truthy accountId) || negb (Js.truthy locationId)
     || Js.includes (default "" accountId) "YOUR_"
     || Js.includes (default "" locationId) "YOUR_"
  then throw MissingIds
  else
    all <- paginate limit (default "" accountId) (default "" locationId) accessToken [] None;;
    let normalized := map normalize (Js.slice0 all limit) in
    ret (Js.sort newest_first normalized).

(** The three constants the handler reads from the request. *)
Definition request_limit (request : HttpRequest) : Z :=
  clampInt (default "10" (searchParams_get (searchParams request) "limit")) 1 50.

Definition request_accountId (request : HttpRequest) (env : Env) : option string :=
  Js.or (searchParams_get (searchParams request) "accountId") (GBP_ACCOUNT_ID env).

Definition request_locationId (request : HttpRequest) (env : Env) : option string :=
  Js.or (searchParams_get (searchParams request) "locationId") (GBP_LOCATION_ID env).

(** The handler. *)
Definition fetch (request : HttpRequest) (env : Env) (st : State W)
  : HttpResponse * State W :=
  if String.eqb (method request) "OPTIONS" then (corsResponse NoBody env 204 [], st)
  else if String.eqb (pathname request) "/reviews" then
    let limit := request_limit request in
    let accountId := request_accountId request env in
    let locationId := request_locationId request env in
    match fetchLatestReviews env limit accountId locationId st with
    | (Return reviews, st') =>
        (corsResponse (JsonReviews reviews) env 200
           [("Content-Type", "application/json; charset=utf-8")], st')
    | (Throw err, st') =>
        (corsResponse (JsonError (message err)) env 500
           [("Content-Type", "application/json; charset=utf-8")], st')
    end
  else
    (corsResponse (PlainText "Not found") env 404
       [("Content-Type", "text/plain; charset=utf-8")], st).

End Pipeline.

(** ** Vocabulary of the statements *)

Section Order.
Context {A : Type} (key : A → Z).

(** The comparator of a descending sort by [key]. *)
Definition descending (a b : A) : Z := key b - key a.

(** The order such a sort leaves its result in. *)
Definition not_after (a b : A) : Prop := key b ≤ key a.

End Order.

(** The request an iteration of the loop issues. *)
Definition page_request (limit : Z) (accountId locationId accessToken : string)
    (all : list Raw.Review) (pageToken : option string) : Request :=
  ListRequest accountId locationId (Z.min 50 (limit - Z.of_nat (length all)))
              (Js.or pageToken None) accessToken.

(** The state an exchange leaves: the upstream has moved and the log has
    gained the request and its reply. *)
Definition after_exchange {W : Type} (upstream : W → Request → Reply * W)
    (st : State W) (rq : Request) : State W :=
  {| world := (upstream (world st) rq).2;
     log := log st ++ [(rq, (upstream (world st) rq).1)] |}.

(** What a page exchange settles to: the error the worker throws, or the
    reviews and the continuation token of the page, when the response is a
    success with a JSON body. *)
Definition page_or_error (rp : Reply) : Error + list Raw.Review * option string :=
  match rp with
  | Rejects reason => inl (Runtime reason)
  | Responds r =>
      if ok r then
        match body_json r with
        | Body j => inr (default [] (reviews j), nextPageToken j)
        | SyntaxError msg => inl (Runtime msg)
        end
      else inl (ListFailed (status r) (body_text r))
  end.

(** The page an exchange delivers, if it delivers one. *)
Definition page (rp : Reply) : option (list Raw.Review * option string) :=
  match page_or_error rp with
  | inr p => Some p
  | inl _ => None
  end.

(** The number of reviews an exchange adds to the accumulated ones. *)
Definition delivered (x : Request * Reply) : nat :=
  match x.1, page x.2 with
  | ListRequest _ _ _ _ _, Some (rs, _) => length rs
  | _, _ => 0%nat
  end.

Definition accumulated (xs : list (Request * Reply)) : nat :=
  foldr (λ x n, (delivered x + n)%nat) 0%nat xs.

(** The loop goes on after an exchange exactly when its page is not
    empty and carries a continuation token (and the count is still short
    of the limit, which the loop test decides). *)
Definition asks_for_more (rp : Reply) : bool :=
  match page rp with
  | Some (rs, next) => Js.truthy next && negb (Z.of_nat (length rs) =? 0)
  | None => false
  end.

Definition is_list_request (rq : Request) : bool :=
  match rq with ListRequest _ _ _ _ _ => true | TokenRequest _ _ _ => false end.

(** The reviews the exchanges of a log deliver, in order. *)
Definition pages (xs : list (Request * Reply)) : list Raw.Review :=
  concat (map (λ x, match page x.2 with Some (rs, _) => rs | None => [] end) xs).

(** The exchanges of a run of the loop entered with [count] accumulated
    reviews: none when the count has reached the limit; otherwise a
    request of [min(50, limit - count)] reviews, followed by the exchanges
    of the rest of the run when the reply asks for more, and by nothing
    when it does not. *)
Fixpoint loop_trace (limit : Z) (accountId locationId accessToken : string)
    (count : nat) (xs : list (Request * Reply)) : Prop :=
  match xs with
  | [] => limit ≤ Z.of_nat count
  | (rq, rp) :: rest =>
      Z.of_nat count < limit ∧
      (∃ pageToken,
         rq = ListRequest accountId locationId (Z.min 50 (limit - Z.of_nat count))
                          pageToken accessToken) ∧
      if asks_for_more rp
      then loop_trace limit accountId locationId accessToken
             (count + delivered (rq, rp)) rest
      else rest = []
  end.

(** [ceil(n / 50)] *)
Definition ceil50 (n : Z) : Z := (n + 49) `div` 50.

(** An upstream behaves normally when each page it serves holds as many
    reviews as were asked for. *)
Definition full_page (x : Request * Reply) : Prop :=
  ∀ a l pageSize pageToken bearer rs next,
    x.1 = ListRequest a l pageSize pageToken bearer → 0 < pageSize →
    page x.2 = Some (rs, next) → Z.of_nat (length rs) = pageSize.

Definition normal {W : Type} (upstream : W → Request → Reply * W) : Prop :=
  ∀ w rq, full_page (rq, (upstream w rq).1).

(** The exchanges of a log are answers of the upstream. *)
Definition answered_by {W : Type} (upstream : W → Request → Reply * W)
    (xs : list (Request * Reply)) : Prop :=
  Forall (λ x, ∃ w, (upstream w x.1).1 = x.2) xs.

(** The creation epoch the final sort orders by: [time || 0]. *)
Definition epoch (r : Review) : Z := time_or_zero (time r).

(** The identifiers the pipeline refuses. *)
Definition bad_ids (accountId locationId : option string) : bool :=
  negb (Js.truthy accountId) || negb (Js.truthy locationId)
  || Js.includes (default "" accountId) "YOUR_"
  || Js.includes (default "" locationId) "YOUR_".

Definition secrets_present (env : Env) : bool :=
  Js.truthy (GOOGLE_OAUTH_CLIENT_ID env) && Js.truthy (GOOGLE_OAUTH_CLIENT_SECRET env)
  && Js.truthy (GOOGLE_OAUTH_REFRESH_TOKEN env).

Definition token_request (env : Env) : Request :=
  TokenRequest (default "" (GOOGLE_OAUTH_CLIENT_ID env))
               (default "" (GOOGLE_OAUTH_CLIENT_SECRET env))
               (default "" (GOOGLE_OAUTH_REFRESH_TOKEN env)).

(** What the token exchange settles to. *)
Definition token_of (rp : Reply) : Outcome string :=
  match rp with
  | Rejects reason => Throw (Runtime reason)
  | Responds r =>
      if ok r then
        match body_json r with
        | Body j =>
            if Js.truthy (access_token j) then Return (default "" (access_token j))
            else Throw NoAccessToken
        | SyntaxError msg => Throw (Runtime msg)
        end
      else Throw (TokenRefreshFailed (status r) (body_text r))
  end.

(** What an outcome returns, if it returns. *)
Definition returned {A : Type} (r : Outcome A) : option A :=
  match r with Return a => Some a | Throw _ => None end.

(** The response the handler builds from the outcome of the pipeline. *)
Definition respond (env : Env) (r : Outcome (list Review)) : HttpResponse :=
  match r with
  | Return reviews =>
      corsResponse (JsonReviews reviews) env 200
        [("Content-Type", "application/json; charset=utf-8")]
  | Throw err =>
      corsResponse (JsonError (message err)) env 500
        [("Content-Type", "application/json; charset=utf-8")]
  end.

(** Following the spec's words: the normalisation of the whole accumulated
    set, sorted newest first, then truncated to the first [limit]. *)
Definition sorted_then_truncated `{Platform} (limit : Z) (all : list Raw.Review)
    : list Review :=
  Js.slice0 (Js.sort newest_first (map normalize all)) limit.

(** ** A concrete platform and upstream, for the examples

    [Number] and [Date] on the strings the examples use: decimal literals
    with an optional sign and fraction (and the infinities), and UTC
    timestamps [YYYY-MM-DDTHH:MM:SS(.sss)Z].  Outside this fragment the
    two functions answer NaN and an invalid date; the properties below are
    proved for every platform, and no example leaves the fragment. *)

Module Fragment.

Definition digit (c : ascii) : option Z :=
  let n := Z.of_N (N_of_ascii c) in
  if (48 <=? n) && (n <=? 57) then Some (n - 48) else None.

(** Leading digits of [s]: their value, their count and the rest. *)
Fixpoint read_digits (s : string) (acc : Z) (n : nat) : Z * nat * string :=
  match s with
  | String c s' =>
      match digit c with
      | Some d => read_digits s' (10 * acc + d) (S n)
      | None => (acc, n, s)
      end
  | EmptyString => (acc, n, s)
  end.

Definition is_space (c : ascii) : bool :=
  let n := Z.of_N (N_of_ascii c) in
  ((9 <=? n) && (n <=? 13)) || (n =? 32).

Fixpoint trim_start (s : string) : string :=
  match s with
  | String c s' => if is_space c then trim_start s' else s
  | EmptyString => s
  end.

Definition trim (s : string) : string :=
  String.rev (trim_start (String.rev (trim_start s))).

Definition unsigned_decimal (s : string) : option Q :=
  let '(i, ni, rest) := read_digits s 0 0 in
  match rest with
  | EmptyString => if (ni =? 0)%nat then None else Some (inject_Z i)
  | String "." rest' =>
      let '(f, nf, rest'') := read_digits rest' 0 0 in
      match rest'' with
      | EmptyString =>
          if (ni + nf =? 0)%nat then None
          else Some (Qmake (i * 10 ^ Z.of_nat nf + f) (Z.to_pos (10 ^ Z.of_nat nf)))
      | _ => None
      end
  | _ => None
  end.

Definition unsigned (s : string) : Js.number :=
  if String.eqb s "Infinity" then Js.Infinity false
  else match unsigned_decimal s with
       | Some q => Js.Finite q
       | None => Js.NaN
       end.

Definition negate (n : Js.number) : Js.number :=
  match n with
  | Js.NaN => Js.NaN
  | Js.Infinity b => Js.Infinity (negb b)
  | Js.Finite q => Js.Finite (Qopp q)
  end.

Definition to_number (s : string) : Js.number :=
  match trim s with
  | EmptyString => Js.Finite 0
  | String "+" s' => unsigned s'
  | String "-" s' => negate (unsigned s')
  | s' => unsigned s'
  end.

(** Days from 1970-01-01 to a date of the proleptic Gregorian calendar. *)
Definition days_from_civil (y m d : Z) : Z :=
  let y' := if m <=? 2 then y - 1 else y in
  let era := y' `div` 400 in
  let yoe := y' - era * 400 in
  let mp := (m + 9) `mod` 12 in
  let doy := (153 * mp + 2) `div` 5 + d - 1 in
  let doe := yoe * 365 + yoe `div` 4 - yoe `div` 100 + doy in
  era * 146097 + doe - 719468.

Definition leap (y : Z) : bool :=
  ((y `mod` 4 =? 0) && negb (y `mod` 100 =? 0)) || (y `mod` 400 =? 0).

Definition days_in_month (y m : Z) : Z :=
  if m =? 2 then (if leap y then 29 else 28)
  else if (m =? 4) || (m =? 6) || (m =? 9) || (m =? 11) then 30
  else 31.

(** Exactly [n] digits, then the rest. *)
Definition field (n : nat) (s : string) : option (Z * string) :=
  let '(v, k, _) := read_digits (String.substring 0 n s) 0 0 in
  if (k =? n)%nat && (n <=? String.length s)%nat
  then Some (v, String.substring n (String.length s - n) s)
  else None.

Definition expect (c : ascii) (s : string) : option string :=
  match s with
  | String c' s' => if Ascii.eqb c c' then Some s' else None
  | EmptyString => None
  end.

Definition timestamp (s : string) : option Z :=
  '(y, s) ← field 4 s; s ← expect "-" s;
  '(mo, s) ← field 2 s; s ← expect "-" s;
  '(d, s) ← field 2 s; s ← expect "T" s;
  '(h, s) ← field 2 s; s ← expect ":" s;
  '(mi, s) ← field 2 s; s ← expect ":" s;
  '(sec, s) ← field 2 s;
  '(ms, s) ← match expect "." s with
              | Some s' => field 3 s'
              | None => Some (0, s)
              end;
  if String.eqb s "Z" && (1 <=? mo) && (mo <=? 12) && (1 <=? d)
     && (d <=? days_in_month y mo) && (h <=? 23) && (mi <=? 59) && (sec <=? 59)
  then Some ((((days_from_civil y mo d * 24 + h) * 60 + mi) * 60 + sec) * 1000 + ms)
  else None.

Definition time_value (s : string) : Js.instant :=
  match timestamp s with
  | Some t => Js.At t
  | None => Js.Invalid
  end.

Definition platform : Platform :=
  {| Number := to_number; Date_getTime := time_value |}.

(** An upstream that answers the requests it receives with the replies
    of a script, in order, and refuses the connection after the last. *)
Definition scripted (script : list Reply) (rq : Request) : Reply * list Reply :=
  match script with
  | r :: script' => (r, script')
  | [] => (Rejects "connection refused", [])
  end.

Definition start (script : list Reply) : State (list Reply) :=
  {| world := script; log := [] |}.

Definition json_reply (j : Json) : Reply :=
  Responds {| status := 200; body_text := ""; body_json := Body j |}.

Definition token_reply (token : string) : Reply :=
  json_reply {| access_token := Some token; reviews := None; nextPageToken := None |}.

Definition page_reply (rs : list Raw.Review) (next : option string) : Reply :=
  json_reply {| access_token := None; reviews := Some rs; nextPageToken := next |}.

Definition review (id : string) (created : option string) : Raw.Review :=
  {| Raw.reviewId := Some id; Raw.reviewer := None; Raw.starRating := Some "FIVE";
     Raw.comment := None; Raw.createTime := created; Raw.updateTime := None |}.

Definition env : Env :=
  {| ALLOWED_ORIGIN := None;
     GOOGLE_OAUTH_CLIENT_ID := Some "id";
     GOOGLE_OAUTH_CLIENT_SECRET := Some "secret";
     GOOGLE_OAUTH_REFRESH_TOKEN := Some "refresh";
     GBP_ACCOUNT_ID := Some "123";
     GBP_LOCATION_ID := Some "456" |}.

Definition env_without_secret : Env :=
  {| ALLOWED_ORIGIN := None;
     GOOGLE_OAUTH_CLIENT_ID := Some "id";
     GOOGLE_OAUTH_CLIENT_SECRET := None;
     GOOGLE_OAUTH_REFRESH_TOKEN := Some "refresh";
     GBP_ACCOUNT_ID := Some "123";
     GBP_LOCATION_ID := Some "456" |}.

(** One page of five reviews whose timestamps are not in order. *)
Definition five : list Raw.Review :=
  [ review "a" (Some "2024-01-03T00:00:00Z");
    review "b" (Some "2024-01-01T00:00:00Z");
    review "c" (Some "2024-01-02T00:00:00Z");
    review "d" (Some "2024-01-05T00:00:00Z");
    review "e" (Some "2024-01-04T00:00:00Z") ].

Definition one_page : list Reply := [token_reply "tok"; page_reply five None].

(** A review without a timestamp, one from before 1970 and one whose
    timestamp does not parse. *)
Definition odd : list Raw.Review :=
  [ review "x" None;
    review "y" (Some "1969-12-31T23:59:59Z");
    review "z" (Some "yesterday") ].

Definition get_reviews (params : list (string * string)) : HttpRequest :=
  {| method := "GET"; pathname := "/reviews"; searchParams := params |}.

Definition post_reviews : HttpRequest :=
  {| method := "POST"; pathname := "/reviews"; searchParams := [] |}.

(** An upstream that serves pages of exactly the size asked for, each
    with a continuation token. *)
Definition full_pages (w : unit) (rq : Request) : Reply * unit :=
  match rq with
  | TokenRequest _ _ _ => (token_reply "tok", w)
  | ListRequest _ _ pageSize _ _ =>
      (page_reply (replicate (Z.to_nat pageSize) (review "r" None)) (Some "next"), w)
  end.

End Fragment.

(** * Properties *)

(** ** The conversions of the examples *)

Example Number_10 : Fragment.to_number "10" = Js.Finite 10.
Proof. reflexivity. Qed.

Example Number_abc : Fragment.to_number "abc" = Js.NaN.
Proof. reflexivity. Qed.

Example Number_frac : Fragment.to_number " -3.75 " = Js.Finite (Qmake (-375) 100).
Proof. reflexivity. Qed.

Example Date_epoch : Fragment.time_value "1970-01-01T00:00:00Z" = Js.At 0.
Proof. reflexivity. Qed.

Example Date_2000 : Fragment.time_value "2000-01-01T00:00:00Z" = Js.At 946684800000.
Proof. reflexivity. Qed.

Example Date_2024 : Fragment.time_value "2024-03-01T12:34:56.789Z" = Js.At 1709296496789.
Proof. reflexivity. Qed.

Example Date_1969 : Fragment.time_value "1969-12-31T23:59:59Z" = Js.At (-1000).
Proof. reflexivity. Qed.

Example Date_bad : Fragment.time_value "yesterday" = Js.Invalid.
Proof. reflexivity. Qed.

(** ** The stable sort *)

Section SortFacts.
Context {A : Type} (key : A → Z).

Local Abbreviation cmp := (descending key).
Local Abbreviation ord := (not_after key).

Lemma insert_Permutation x l : Js.insert cmp x l ≡ₚ x :: l.
Proof.
  induction l as [|y l IH]; simpl; [done|].
  destruct (cmp x y <=? 0); [done|].
  rewrite IH. apply Permutation_swap.
Qed.

Lemma sort_Permutation l : Js.sort cmp l ≡ₚ l.
Proof.
  induction l as [|x l IH]; simpl; [done|].
  rewrite insert_Permutation. by rewrite IH.
Qed.

Lemma sort_length l : length (Js.sort cmp l) = length l.
Proof. apply Permutation_length, sort_Permutation. Qed.

Lemma insert_StronglySorted x l :
  StronglySorted ord l → StronglySorted ord (Js.insert cmp x l).
Proof.
  induction 1 as [|y l Hl IH Hy]; simpl.
  - repeat constructor.
  - unfold descending at 1.
    destruct (Z.leb_spec (key y - key x) 0) as [Hle|Hgt].
    + constructor; [by constructor|].
      constructor; [unfold not_after; lia|].
      eapply Forall_impl; [exact Hy|]. unfold not_after. intros; lia.
    + constructor; [done|].
      rewrite insert_Permutation. constructor; [unfold not_after; lia|done].
Qed.

Lemma sort_StronglySorted l : StronglySorted ord (Js.sort cmp l).
Proof.
  induction l as [|x l IH]; simpl; [constructor|].
  by apply insert_StronglySorted.
Qed.

(** Stability: the elements of one key keep their order. *)
Lemma insert_filter_key k x l :
  filter (λ a, key a = k) (Js.insert cmp x l) = filter (λ a, key a = k) (x :: l).
Proof.
  induction l as [|y l IH]; simpl; [done|].
  unfold descending at 1.
  destruct (Z.leb_spec (key y - key x) 0) as [Hle|Hgt]; [done|].
  rewrite filter_cons, IH, !filter_cons.
  repeat case_decide; try done; lia.
Qed.

Lemma sort_stable k l :
  filter (λ a, key a = k) (Js.sort cmp l) = filter (λ a, key a = k) l.
Proof.
  induction l as [|x l IH]; simpl; [done|].
  rewrite insert_filter_key, !filter_cons, IH. done.
Qed.

(** A list already in descending order is left as it is. *)
Lemma sort_sorted_id l : StronglySorted ord l → Js.sort cmp l = l.
Proof.
  induction 1 as [|x l Hl IH Hx]; simpl; [done|].
  rewrite IH. destruct Hx as [|y l' Hy _]; simpl; [done|].
  unfold descending. destruct (Z.leb_spec (key y - key x) 0); [done|].
  unfold not_after in Hy. lia.
Qed.

Lemma StronglySorted_lookup l i j a b :
  StronglySorted ord l → (i < j)%nat → l !! i = Some a → l !! j = Some b →
  key b ≤ key a.
Proof.
  intros Hl. revert i j. induction Hl as [|x l Hl IH Hx]; intros i j Hij Hi Hj.
  - done.
  - destruct j as [|j]; [lia|]. destruct i as [|i]; simpl in *.
    + injection Hi as <-. rewrite Forall_forall in Hx.
      apply Hx. eapply list_elem_of_lookup_2. exact Hj.
    + eapply IH; [|exact Hi|exact Hj]. lia.
Qed.

End SortFacts.

Lemma slice0_length {A} (l : list A) (e : Z) :
  0 ≤ e → Z.of_nat (length (Js.slice0 l e)) ≤ e.
Proof.
  intros He. unfold Js.slice0. destruct (Z.ltb_spec e 0); [lia|].
  rewrite length_take. lia.
Qed.

Lemma slice0_all {A} (l : list A) (e : Z) :
  Z.of_nat (length l) ≤ e → Js.slice0 l e = l.
Proof.
  intros He. unfold Js.slice0. destruct (Z.ltb_spec e 0); [lia|].
  apply take_ge. lia.
Qed.

(** ** The pagination loop *)

Section LoopFacts.
Context `{Platform} {W : Type} (upstream : W → Request → Reply * W).
Context (limit : Z) (accountId locationId accessToken : string).

Local Abbreviation iter := (iteration upstream limit accountId locationId accessToken).
Local Abbreviation loop := (paginate upstream limit accountId locationId accessToken).

Local Abbreviation page_rq := (page_request limit accountId locationId accessToken).
Local Abbreviation after := (after_exchange upstream).

Lemma iteration_done all pageToken st :
  limit ≤ Z.of_nat (length all) → iter all pageToken st = (Return (Stop all), st).
Proof.
  intros Hge. unfold iteration.
  destruct (Z.ltb_spec (Z.of_nat (length all)) limit); [lia|done].
Qed.

Lemma iteration_exchange all pageToken st :
  Z.of_nat (length all) < limit →
  let rq := page_rq all pageToken in
  let rp := (upstream (world st) rq).1 in
  iter all pageToken st =
    (match page_or_error rp with
     | inr (rs, next) =>
         if asks_for_more rp then Return (Next (all ++ rs) next)
         else Return (Stop (all ++ rs))
     | inl e => Throw e
     end, after st rq).
Proof.
  intros Hlt rq rp. unfold iteration, loop_body, bind, net_fetch.
  destruct (Z.ltb_spec (Z.of_nat (length all)) limit); [|lia].
  fold (page_rq all pageToken). fold rq.
  unfold after_exchange, asks_for_more, page, page_or_error. subst rp.
  destruct (upstream (world st) rq) as [[reason|resp] w']; simpl; [done|].
  destruct (ok resp); simpl; [|done].
  unfold resp_json. destruct (body_json resp) as [msg|json]; simpl; [done|].
  unfold ret.
  destruct (Js.truthy (nextPageToken json)); simpl; [|done].
  by destruct (Z.of_nat (length (default [] (reviews json))) =? 0).
Qed.

Lemma paginate_clause v all pageToken st (e : iter all pageToken st = v) :
  paginate_unfold_clause_1 upstream limit accountId locationId accessToken
    all pageToken st (exist _ v e) =
    match v with
    | (Return (Next all' pageToken'), st') => loop all' pageToken' st'
    | (Return (Stop all'), st') => (Return all', st')
    | (Throw e, st') => (Throw e, st')
    end.
Proof. destruct v as [[[all' pageToken'|all']|err] st']; reflexivity. Qed.

Lemma paginate_step all pageToken st :
  loop all pageToken st =
    match iter all pageToken st with
    | (Return (Next all' pageToken'), st') => loop all' pageToken' st'
    | (Return (Stop all'), st') => (Return all', st')
    | (Throw e, st') => (Throw e, st')
    end.
Proof. rewrite paginate_equation_1. apply paginate_clause. Qed.

(** Induction on the runs of the loop: a run ends at the loop test, on an
    exchange that delivers no page, or on a page that does not ask for
    more; otherwise it goes on from the longer accumulated list. *)
Lemma paginate_ind
    (P : list Raw.Review → option string → State W →
         Outcome (list Raw.Review) * State W → Prop) :
  (∀ all pageToken st,
     limit ≤ Z.of_nat (length all) → P all pageToken st (Return all, st)) →
  (∀ all pageToken st e,
     let rq := page_rq all pageToken in
     let rp := (upstream (world st) rq).1 in
     Z.of_nat (length all) < limit → page_or_error rp = inl e →
     P all pageToken st (Throw e, after st rq)) →
  (∀ all pageToken st rs next,
     let rq := page_rq all pageToken in
     let rp := (upstream (world st) rq).1 in
     Z.of_nat (length all) < limit → page rp = Some (rs, next) →
     asks_for_more rp = false →
     P all pageToken st (Return (all ++ rs), after st rq)) →
  (∀ all pageToken st rs next,
     let rq := page_rq all pageToken in
     let rp := (upstream (world st) rq).1 in
     Z.of_nat (length all) < limit → page rp = Some (rs, next) →
     asks_for_more rp = true →
     P (all ++ rs) next (after st rq) (loop (all ++ rs) next (after st rq)) →
     P all pageToken st (loop (all ++ rs) next (after st rq))) →
  ∀ all pageToken st, P all pageToken st (loop all pageToken st).
Proof.
  intros Hdone Hfail Hstop Hnext all.
  remember (Z.to_nat (limit - Z.of_nat (length all))) as n eqn:Hn.
  revert all Hn. induction n as [n IH] using lt_wf_ind. intros all -> pageToken st.
  rewrite paginate_step.
  destruct (Z.le_gt_cases limit (Z.of_nat (length all))) as [Hge|Hlt].
  { rewrite iteration_done by done. by apply Hdone. }
  rewrite iteration_exchange by lia.
  destruct (page_or_error _) as [e|[rs next]] eqn:Hpage; [by apply Hfail; [lia|]|].
  assert (page (upstream (world st) (page_rq all pageToken)).1 = Some (rs, next))
    as Hpage' by (unfold page; by rewrite Hpage).
  destruct (asks_for_more _) eqn:Hmore; [|by eapply Hstop; [lia|..]].
  eapply Hnext; [lia|done..|].
  eapply IH; [|done].
  unfold asks_for_more in Hmore. rewrite Hpage' in Hmore.
  apply andb_prop in Hmore as [_ Hne]. apply negb_true_iff, Z.eqb_neq in Hne.
  rewrite length_app. lia.
Qed.

(** The exchanges of a run, and the list it returns. *)
Lemma paginate_trace all pageToken st :
  ∃ xs,
    log (loop all pageToken st).2 = log st ++ xs ∧
    loop_trace limit accountId locationId accessToken (length all) xs ∧
    answered_by upstream xs ∧
    ∀ all', (loop all pageToken st).1 = Return all' → all' = all ++ pages xs.
Proof.
  revert all pageToken st.
  apply (paginate_ind (λ all pageToken st r,
    ∃ xs, log r.2 = log st ++ xs ∧
          loop_trace limit accountId locationId accessToken (length all) xs ∧
          answered_by upstream xs ∧
          ∀ all', r.1 = Return all' → all' = all ++ pages xs)).
  - intros all pageToken st Hge. exists []. simpl. rewrite !app_nil_r.
    split; [done|]. split; [done|]. split; [constructor|]. by intros ? [= <-].
  - intros all pageToken st e rq rp Hlt Hpage. exists [(rq, rp)]. simpl.
    split; [done|]. split; [|split; [|done]].
    + split; [done|]. split; [by eexists|]. unfold asks_for_more, page. by rewrite Hpage.
    + constructor; [|constructor]. by exists (world st).
  - intros all pageToken st rs next rq rp Hlt Hpage Hmore. exists [(rq, rp)]. simpl.
    split; [done|]. split; [|split].
    + split; [done|]. split; [by eexists|]. by rewrite Hmore.
    + constructor; [|constructor]. by exists (world st).
    + intros ? [= <-]. unfold pages. simpl. rewrite Hpage. by rewrite app_nil_r.
  - intros all pageToken st rs next rq rp Hlt Hpage Hmore (xs & Hlog & Htrace & Hans & Hall).
    exists ((rq, rp) :: xs). split; [|split; [|split]].
    + rewrite Hlog. simpl. by rewrite <- app_assoc.
    + simpl. split; [done|]. split; [by eexists|].
      rewrite Hmore. unfold delivered. simpl. rewrite Hpage.
      by rewrite length_app in Htrace.
    + constructor; [by exists (world st)|done].
    + intros all' Hret. rewrite (Hall all' Hret).
      unfold pages. simpl. rewrite Hpage. by rewrite <- app_assoc.
Qed.

(** What a run throws is what an exchange without a page settles to. *)
Lemma paginate_throws all pageToken st e :
  (loop all pageToken st).1 = Throw e → ∃ rp, page_or_error rp = inl e.
Proof.
  revert all pageToken st.
  apply (paginate_ind (λ _ _ _ r,
    r.1 = Throw e → ∃ rp, page_or_error rp = inl e)); simpl; try done.
  intros all pageToken st e' Hlt Hpage [= <-]. eauto.
Qed.

End LoopFacts.

(** ** Token acquisition and the pipeline *)

Section PipelineFacts.
Context `{Platform} {W : Type} (upstream : W → Request → Reply * W).

Lemma getAccessToken_missing env st :
  secrets_present env = false → getAccessToken upstream env st = (Throw MissingSecrets, st).
Proof.
  unfold secrets_present, getAccessToken. intros Hs.
  destruct (Js.truthy (GOOGLE_OAUTH_CLIENT_ID env)),
    (Js.truthy (GOOGLE_OAUTH_CLIENT_SECRET env)),
    (Js.truthy (GOOGLE_OAUTH_REFRESH_TOKEN env)); done.
Qed.

Lemma getAccessToken_exchange env st :
  secrets_present env = true →
  getAccessToken upstream env st =
    (token_of (upstream (world st) (token_request env)).1,
     after_exchange upstream st (token_request env)).
Proof.
  unfold secrets_present, getAccessToken. intros Hs.
  destruct (Js.truthy (GOOGLE_OAUTH_CLIENT_ID env)),
    (Js.truthy (GOOGLE_OAUTH_CLIENT_SECRET env)),
    (Js.truthy (GOOGLE_OAUTH_REFRESH_TOKEN env)); try done. simpl.
  fold (token_request env). unfold bind, net_fetch, after_exchange, token_of.
  destruct (upstream (world st) (token_request env)) as [[reason|r] w']; simpl; [done|].
  destruct (ok r); simpl; [|done].
  unfold resp_json. destruct (body_json r) as [msg|j]; simpl; [done|].
  by destruct (Js.truthy (access_token j)).
Qed.

(** The exchanges of the token acquisition: none, or one token request. *)
Lemma getAccessToken_log env st :
  ∃ xs, log (getAccessToken upstream env st).2 = log st ++ xs ∧
        (length xs ≤ 1)%nat ∧ Forall (λ x, is_list_request x.1 = false) xs ∧
        answered_by upstream xs.
Proof.
  destruct (secrets_present env) eqn:Hs.
  - rewrite getAccessToken_exchange by done.
    exists [(token_request env, (upstream (world st) (token_request env)).1)].
    split; [done|]. split; [simpl; lia|]. split.
    + by repeat constructor.
    + constructor; [|constructor]. by exists (world st).
  - rewrite getAccessToken_missing by done. exists []. rewrite app_nil_r.
    split; [done|]. split; [simpl; lia|]. split; constructor.
Qed.

Lemma fetchLatestReviews_unfold env limit accountId locationId st :
  fetchLatestReviews upstream env limit accountId locationId st =
    match getAccessToken upstream env st with
    | (Throw e, st1) => (Throw e, st1)
    | (Return accessToken, st1) =>
        if bad_ids accountId locationId then (Throw MissingIds, st1)
        else
          match paginate upstream limit (default "" accountId) (default "" locationId)
                         accessToken [] None st1 with
          | (Return all, st2) =>
              (Return (Js.sort newest_first (map normalize (Js.slice0 all limit))), st2)
          | (Throw e, st2) => (Throw e, st2)
          end
    end.
Proof.
  unfold fetchLatestReviews, bind, bad_ids.
  destruct (getAccessToken upstream env st) as [[accessToken|e] st1]; [|done].
  destruct (_ || _); [done|].
  by destruct (paginate _ _ _ _ _ _ _ _) as [[all|e] st2].
Qed.

Lemma fetch_reviews request env st :
  method request ≠ "OPTIONS" → pathname request = "/reviews" →
  fetch upstream request env st =
    match fetchLatestReviews upstream env (request_limit request)
            (request_accountId request env) (request_locationId request env) st with
    | (Return reviews, st') =>
        (corsResponse (JsonReviews reviews) env 200
           [("Content-Type", "application/json; charset=utf-8")], st')
    | (Throw err, st') =>
        (corsResponse (JsonError (message err)) env 500
           [("Content-Type", "application/json; charset=utf-8")], st')
    end.
Proof.
  intros Hm Hp. unfold fetch.
  destruct (String.eqb_spec (method request) "OPTIONS"); [done|].
  by destruct (String.eqb_spec (pathname request) "/reviews").
Qed.

End PipelineFacts.

(** ** What the log of a run tells *)

Section TraceFacts.
Context (limit : Z) (accountId locationId accessToken : string).

Local Abbreviation trace := (loop_trace limit accountId locationId accessToken).

Lemma asks_for_more_page rp :
  asks_for_more rp = true →
  ∃ rs next, page rp = Some (rs, next) ∧ Js.truthy next = true ∧ (0 < length rs)%nat.
Proof.
  unfold asks_for_more. destruct (page rp) as [[rs next]|]; [|done].
  intros [Hnext Hrs]%andb_prop. exists rs, next. split_and!; [done..|].
  apply negb_true_iff, Z.eqb_neq in Hrs. lia.
Qed.

Lemma delivered_list a l ps pt b rp rs next :
  page rp = Some (rs, next) → delivered (ListRequest a l ps pt b, rp) = length rs.
Proof. unfold delivered. simpl. by intros ->. Qed.

(** Every exchange of the loop is a page request. *)
Lemma loop_trace_requests count xs :
  trace count xs → Forall (λ x, is_list_request x.1 = true) xs.
Proof.
  revert count. induction xs as [|[rq rp] rest IH]; intros count; [constructor|].
  simpl. intros (_ & [pt ->] & Hrest). constructor; [done|].
  destruct (asks_for_more rp); [by eapply IH|]. subst. constructor.
Qed.

(** A run issues at most as many requests as reviews are missing. *)
Lemma loop_trace_length count xs :
  trace count xs → (length xs ≤ Z.to_nat (limit - Z.of_nat count))%nat.
Proof.
  revert count. induction xs as [|[rq rp] rest IH]; intros count; simpl; [lia|].
  intros (Hlt & [pt ->] & Hrest).
  destruct (asks_for_more rp) eqn:Hmore; [|subst; simpl; lia].
  apply asks_for_more_page in Hmore as (rs & next & Hpage & _ & Hrs).
  rewrite (delivered_list _ _ _ _ _ _ _ _ Hpage) in Hrest.
  apply IH in Hrest. lia.
Qed.

Lemma ceil50_spec n : 50 * (ceil50 n - 1) < n ≤ 50 * ceil50 n.
Proof. unfold ceil50. Z.to_euclidean_division_equations. lia. Qed.

(** With full pages, at most [ceil((limit - count) / 50)] requests. *)
Lemma loop_trace_full_pages count xs :
  trace count xs → Forall full_page xs →
  (length xs ≤ Z.to_nat (ceil50 (limit - Z.of_nat count)))%nat.
Proof.
  revert count. induction xs as [|[rq rp] rest IH]; intros count; simpl; [lia|].
  intros (Hlt & [pt ->] & Hrest) [Hfull Hfulls]%Forall_cons.
  pose proof (ceil50_spec (limit - Z.of_nat count)) as Hn.
  destruct (asks_for_more rp) eqn:Hmore; [|subst; simpl; lia].
  apply asks_for_more_page in Hmore as (rs & next & Hpage & _ & Hrs).
  rewrite (delivered_list _ _ _ _ _ _ _ _ Hpage) in Hrest.
  apply IH in Hrest; [|done].
  specialize (Hfull _ _ _ _ _ rs next eq_refl). simpl in Hfull.
  specialize (Hfull ltac:(lia) Hpage).
  pose proof (ceil50_spec (limit - Z.of_nat (count + length rs))) as Hn'.
  lia.
Qed.

(** Where a run stands at each of its exchanges. *)
Lemma loop_trace_split count pre rq rp post :
  trace count (pre ++ (rq, rp) :: post) →
  let before := (count + accumulated pre)%nat in
  Z.of_nat before < limit ∧
  (∃ pageToken,
     rq = ListRequest accountId locationId (Z.min 50 (limit - Z.of_nat before))
                      pageToken accessToken) ∧
  (post ≠ [] ↔
   asks_for_more rp = true ∧ Z.of_nat (before + delivered (rq, rp)) < limit).
Proof.
  revert count. induction pre as [|[rq' rp'] pre IH]; intros count; simpl.
  - rewrite Nat.add_0_r. intros (Hlt & Hrq & Hrest). split; [done|]. split; [done|].
    destruct (asks_for_more rp).
    + destruct post as [|[rq2 rp2] post]; simpl in Hrest.
      * split; [done|]. intros [_ ?]. lia.
      * split; [|done]. intros _. split; [done|]. tauto.
    + subst. split; [done|]. by intros [? _].
  - intros (Hlt & Hrq & Hrest).
    destruct (asks_for_more rp'); [|by destruct pre].
    apply IH in Hrest. simpl in Hrest.
    by replace (count + (delivered (rq', rp') + accumulated pre))%nat
      with (count + delivered (rq', rp') + accumulated pre)%nat by lia.
Qed.

End TraceFacts.

(** ** Termination and bounds of the loop *)

Section Termination.
Context {W : Type} (upstream : W → Request → Reply * W).

Lemma answered_by_full_pages xs :
  normal upstream → answered_by upstream xs → Forall full_page xs.
Proof.
  intros Hn Hxs. eapply Forall_impl; [exact Hxs|].
  intros [rq rp] [w Hw]. simpl in Hw. subst rp. apply Hn.
Qed.

(** C7. From every state, for every limit and every upstream, the loop
    comes to an end after at most as many page requests as reviews were
    missing when it was entered.  Each of its exchanges is a page request
    issued with the accumulated count short of the limit, and a further
    request follows exactly when the page just fetched is not empty,
    carries a continuation token and leaves the count short of the limit;
    so an empty page is the last exchange even when it carries a token.
    When every page holds as many reviews as were asked for, the loop
    issues at most [ceil(missing / 50)] requests. *)
Theorem paginate_terminates (limit : Z) (accountId locationId accessToken : string)
    (all : list Raw.Review) (pageToken : option string) (st : State W) :
  ∃ xs,
    log (paginate upstream limit accountId locationId accessToken all pageToken st).2 =
      log st ++ xs ∧
    (length xs ≤ Z.to_nat (limit - Z.of_nat (length all)))%nat ∧
    (∀ pre rq rp post,
       xs = pre ++ (rq, rp) :: post →
       let before := (length all + accumulated pre)%nat in
       is_list_request rq = true ∧ Z.of_nat before < limit ∧
       (post ≠ [] ↔
        asks_for_more rp = true ∧ Z.of_nat (before + delivered (rq, rp)) < limit)) ∧
    (∀ pre rq rp post next,
       xs = pre ++ (rq, rp) :: post → page rp = Some ([], next) → post = []) ∧
    (normal upstream →
     (length xs ≤ Z.to_nat (ceil50 (limit - Z.of_nat (length all))))%nat).
Proof.
  destruct (paginate_trace upstream limit accountId locationId accessToken
              all pageToken st) as (xs & Hlog & Htrace & Hans & _).
  exists xs. split; [done|]. split; [by eapply loop_trace_length|].
  assert (∀ pre rq rp post,
    xs = pre ++ (rq, rp) :: post →
    let before := (length all + accumulated pre)%nat in
    is_list_request rq = true ∧ Z.of_nat before < limit ∧
    (post ≠ [] ↔
     asks_for_more rp = true ∧ Z.of_nat (before + delivered (rq, rp)) < limit))
    as Hsplit.
  { intros pre rq rp post -> before.
    apply loop_trace_split in Htrace as (Hlt & [pt ->] & Hpost). done. }
  split; [exact Hsplit|]. split.
  - intros pre rq rp post next Hxs Hpage.
    destruct (Hsplit pre rq rp post Hxs) as (_ & _ & Hpost).
    destruct post as [|x post]; [done|].
    destruct Hpost as [Hpost _]. destruct Hpost as [Hmore _]; [done|].
    apply asks_for_more_page in Hmore as (rs & next' & Hpage' & _ & Hrs).
    rewrite Hpage in Hpage'. injection Hpage' as <- _. simpl in Hrs. lia.
  - intros Hn. eapply loop_trace_full_pages; [done|].
    by apply answered_by_full_pages.
Qed.

End Termination.

(** ** The handler *)

Section HandlerFacts.
Context `{Platform} {W : Type} (upstream : W → Request → Reply * W).

Lemma clampInt_range value min max :
  min ≤ max → min ≤ clampInt value min max ≤ max.
Proof. intros Hle. unfold clampInt. destruct (Number value); lia. Qed.

Lemma clampInt_not_finite value min max :
  Js.isFinite (Number value) = false → clampInt value min max = min.
Proof. unfold clampInt. by destruct (Number value). Qed.

Lemma request_limit_range request : 1 ≤ request_limit request ≤ 50.
Proof. by apply clampInt_range. Qed.

(** C4 (amended). An absent [limit] parameter is replaced by "10" before
    the conversion, so the effective limit is the clamp of [Number("10")],
    which is 10 where that conversion gives 10; a present parameter whose
    conversion is not finite gives the lower bound 1. *)
Theorem request_limit_absent_or_not_finite (request : HttpRequest) :
  (searchParams_get (searchParams request) "limit" = None →
   request_limit request = clampInt "10" 1 50 ∧
   (Number "10" = Js.Finite 10 → request_limit request = 10)) ∧
  (∀ v, searchParams_get (searchParams request) "limit" = Some v →
        Js.isFinite (Number v) = false → request_limit request = 1).
Proof.
  unfold request_limit. split.
  - intros ->. simpl. split; [done|]. unfold clampInt. by intros ->.
  - intros v -> Hv. simpl. by apply clampInt_not_finite.
Qed.

(** C3 (amended). The handler answers OPTIONS with 204 on every path;
    any other method on a path other than /reviews with 404 and the text
    "Not found", without a network call; and any other method on /reviews
    as it answers GET, with 200 or 500. *)
Theorem fetch_dispatch (request : HttpRequest) (env : Env) (st : State W) :
  (method request = "OPTIONS" →
   fetch upstream request env st = (corsResponse NoBody env 204 [], st)) ∧
  (method request ≠ "OPTIONS" → pathname request ≠ "/reviews" →
   fetch upstream request env st =
     (corsResponse (PlainText "Not found") env 404
        [("Content-Type", "text/plain; charset=utf-8")], st)) ∧
  (method request ≠ "OPTIONS" → pathname request = "/reviews" →
   fetch upstream request env st =
     fetch upstream {| method := "GET"; pathname := "/reviews";
                       searchParams := searchParams request |} env st ∧
   (resp_status (fetch upstream request env st).1 = 200 ∨
    resp_status (fetch upstream request env st).1 = 500)).
Proof.
  split; [|split].
  - intros Hm. unfold fetch. by rewrite Hm.
  - intros Hm Hp. unfold fetch.
    destruct (String.eqb_spec (method request) "OPTIONS"); [done|].
    by destruct (String.eqb_spec (pathname request) "/reviews").
  - intros Hm Hp. rewrite !fetch_reviews by done.
    split; [done|].
    destruct (fetchLatestReviews _ _ _ _ _ _) as [[reviews|err] st']; simpl; auto.
Qed.

End HandlerFacts.

(** ** Order and size of the result *)

Section ResultFacts.
Context `{Platform} {W : Type} (upstream : W → Request → Reply * W).

Lemma fetchLatestReviews_Return env limit accountId locationId st out st' :
  fetchLatestReviews upstream env limit accountId locationId st = (Return out, st') →
  ∃ accessToken st1 all,
    getAccessToken upstream env st = (Return accessToken, st1) ∧
    bad_ids accountId locationId = false ∧
    paginate upstream limit (default "" accountId) (default "" locationId)
             accessToken [] None st1 = (Return all, st') ∧
    out = Js.sort newest_first (map normalize (Js.slice0 all limit)).
Proof.
  rewrite fetchLatestReviews_unfold.
  destruct (getAccessToken upstream env st) as [[accessToken|e] st1]; [|done].
  destruct (bad_ids accountId locationId); [done|].
  destruct (paginate _ _ _ _ _ _ _ _) as [[all|e] st2] eqn:Hloop; [|done].
  intros [= <- <-]. by exists accessToken, st1, all.
Qed.

(** C1 (amended). What the pipeline returns is the normalisation of the
    first [limit] accumulated records, sorted newest first by a stable
    sort: a permutation of them, in descending order of epoch, the records
    of one epoch in the order they were accumulated in.  When no more than
    [limit] records were accumulated, this is the normalisation of them
    all, sorted and then truncated. *)
Theorem fetchLatestReviews_sorts_truncated (env : Env) (limit : Z)
    (accountId locationId : option string) (st st' : State W) (out : list Review) :
  fetchLatestReviews upstream env limit accountId locationId st = (Return out, st') →
  ∃ accessToken st1 all,
    getAccessToken upstream env st = (Return accessToken, st1) ∧
    paginate upstream limit (default "" accountId) (default "" locationId)
             accessToken [] None st1 = (Return all, st') ∧
    let kept := map normalize (Js.slice0 all limit) in
    out = Js.sort newest_first kept ∧
    out ≡ₚ kept ∧
    StronglySorted (not_after epoch) out ∧
    (∀ k, filter (λ r, epoch r = k) out = filter (λ r, epoch r = k) kept) ∧
    (Z.of_nat (length all) ≤ limit → out = sorted_then_truncated limit all).
Proof.
  intros (accessToken & st1 & all & Htok & _ & Hloop & ->)%fetchLatestReviews_Return.
  exists accessToken, st1, all. split; [done|]. split; [done|].
  split; [done|]. split; [apply (sort_Permutation epoch)|].
  split; [apply (sort_StronglySorted epoch)|].
  split; [intros k; apply (sort_stable epoch)|].
  intros Hall. unfold sorted_then_truncated.
  rewrite (slice0_all all) by done.
  rewrite slice0_all; [done|].
  change newest_first with (descending epoch).
  by rewrite sort_length, length_map.
Qed.

(** C5 (amended). In what the pipeline returns, a review in front of
    another has an epoch at least as large, where the epoch is the [time]
    the sort compares, a NaN [time] counting as 0; and a review of epoch
    0 comes after every review of positive epoch. *)
Theorem fetchLatestReviews_descending (env : Env) (limit : Z)
    (accountId locationId : option string) (st st' : State W) (out : list Review) :
  fetchLatestReviews upstream env limit accountId locationId st = (Return out, st') →
  (∀ i j a b, (i < j)%nat → out !! i = Some a → out !! j = Some b →
              epoch b ≤ epoch a) ∧
  (∀ i j a b, out !! i = Some a → out !! j = Some b →
              epoch a = 0 → 0 < epoch b → (j < i)%nat).
Proof.
  intros (accessToken & st1 & all & _ & _ & _ & ->)%fetchLatestReviews_Return.
  pose proof (sort_StronglySorted epoch (map normalize (Js.slice0 all limit))) as Hs.
  change (descending epoch) with newest_first in Hs.
  assert (∀ i j a b, (i < j)%nat →
            Js.sort newest_first (map normalize (Js.slice0 all limit)) !! i = Some a →
            Js.sort newest_first (map normalize (Js.slice0 all limit)) !! j = Some b →
            epoch b ≤ epoch a) as Hdesc.
  { intros i j a b. by apply StronglySorted_lookup. }
  split; [exact Hdesc|].
  intros i j a b Hi Hj Ha Hb.
  destruct (Nat.lt_trichotomy i j) as [Hlt|[->|Hgt]]; [| |done].
  - pose proof (Hdesc i j a b Hlt Hi Hj). lia.
  - rewrite Hi in Hj. injection Hj as ->. lia.
Qed.

(** Non-list exchanges in front of a run of the loop do not count. *)
Lemma split_after_others (xs1 xs2 pre post : list (Request * Reply)) rq rp :
  Forall (λ x, is_list_request x.1 = false) xs1 →
  is_list_request rq = true →
  xs1 ++ xs2 = pre ++ (rq, rp) :: post →
  ∃ pre', xs2 = pre' ++ (rq, rp) :: post ∧ accumulated pre = accumulated pre'.
Proof.
  intros Hxs1 Hrq. revert pre. induction Hxs1 as [|[rq1 rp1] xs1 Hx1 _ IH]; intros pre Heq.
  - by exists pre.
  - destruct pre as [|[rq2 rp2] pre]; simpl in *.
    + injection Heq as -> -> _. congruence.
    + injection Heq as -> -> Heq. destruct (IH _ Heq) as (pre' & -> & Hacc).
      exists pre'. split; [done|]. rewrite <- Hacc.
      unfold delivered. simpl. by destruct rq2.
Qed.

(** The exchanges of the pipeline: those of the token acquisition, then
    those of a run of the loop from the empty list. *)
Lemma fetchLatestReviews_log env limit accountId locationId st :
  ∃ xs,
    log (fetchLatestReviews upstream env limit accountId locationId st).2 = log st ++ xs ∧
    ∀ pre rq rp post,
      xs = pre ++ (rq, rp) :: post → is_list_request rq = true →
      ∃ pageToken accessToken,
        rq = ListRequest (default "" accountId) (default "" locationId)
               (Z.min 50 (limit - Z.of_nat (accumulated pre))) pageToken accessToken.
Proof.
  rewrite fetchLatestReviews_unfold.
  destruct (getAccessToken_log upstream env st) as (xs1 & Hlog1 & _ & Hxs1 & _).
  assert (∀ pre rq rp post,
    xs1 = pre ++ (rq, rp) :: post → is_list_request rq = true → False) as Hnone.
  { intros pre rq rp post -> Hrq. apply Forall_app in Hxs1 as [_ Hx].
    apply Forall_cons in Hx as [Hx _]. simpl in Hx. congruence. }
  destruct (getAccessToken upstream env st) as [[accessToken|e] st1]; simpl in *.
  2:{ exists xs1. split; [done|]. intros. exfalso. eauto. }
  destruct (bad_ids accountId locationId).
  { exists xs1. split; [done|]. intros. exfalso. eauto. }
  destruct (paginate_trace upstream limit (default "" accountId) (default "" locationId)
              accessToken [] None st1) as (xs2 & Hlog2 & Htrace & _).
  exists (xs1 ++ xs2). split.
  - rewrite app_assoc, <- Hlog1, <- Hlog2.
    by destruct (paginate _ _ _ _ _ _ _ _) as [[all|e] st2].
  - intros pre rq rp post Heq Hrq.
    destruct (split_after_others _ _ _ _ _ _ Hxs1 Hrq Heq) as (pre' & -> & ->).
    apply loop_trace_split in Htrace as (_ & [pt ->] & _). simpl. eauto.
Qed.

(** C8. The effective limit of a request lies between 1 and 50; a
    response that carries reviews carries at most that many; and every
    page request the handler issues asks for [min(50, limit - count)]
    reviews, [count] being the number the pages before it delivered. *)
Theorem fetch_bounded (request : HttpRequest) (env : Env) (st : State W) :
  let limit := request_limit request in
  let result := fetch upstream request env st in
  1 ≤ limit ≤ 50 ∧
  (∀ reviews, resp_body result.1 = JsonReviews reviews →
              Z.of_nat (length reviews) ≤ limit) ∧
  ∃ xs,
    log result.2 = log st ++ xs ∧
    ∀ pre accountId locationId pageSize pageToken bearer rp post,
      xs = pre ++ (ListRequest accountId locationId pageSize pageToken bearer, rp) :: post →
      pageSize = Z.min 50 (limit - Z.of_nat (accumulated pre)).
Proof.
  intros limit result. pose proof (request_limit_range request) as Hrange.
  split; [done|]. subst result. unfold fetch.
  destruct (String.eqb (method request) "OPTIONS").
  { simpl. split; [done|]. exists []. rewrite app_nil_r. split; [done|].
    intros pre ????? rp post Heq. by destruct pre. }
  destruct (String.eqb (pathname request) "/reviews").
  2:{ simpl. split; [done|]. exists []. rewrite app_nil_r. split; [done|].
      intros pre ????? rp post Heq. by destruct pre. }
  fold limit.
  destruct (fetchLatestReviews_log env limit (request_accountId request env)
              (request_locationId request env) st) as (xs & Hlog & Hreq).
  destruct (fetchLatestReviews _ _ _ _ _ _) as [[out|e] st'] eqn:Hrun; simpl in *.
  - split.
    + intros reviews [= <-].
      apply fetchLatestReviews_Return in Hrun as (? & ? & all & _ & _ & _ & ->).
      change newest_first with (descending epoch).
      rewrite sort_length, length_map. apply slice0_length. lia.
    + exists xs. split; [done|]. intros pre a l ps pt b rp post Heq.
      destruct (Hreq _ _ _ _ Heq eq_refl) as (? & ? & [= _ _ -> _ _]). done.
  - split; [done|].
    exists xs. split; [done|]. intros pre a l ps pt b rp post Heq.
    destruct (Hreq _ _ _ _ Heq eq_refl) as (? & ? & [= _ _ -> _ _]). done.
Qed.

End ResultFacts.

(** ** Configuration errors *)

Section ConfigurationFacts.
Context `{Platform} {W : Type} (upstream : W → Request → Reply * W).

Lemma secrets_present_false env :
  secrets_present env = false ↔
  Js.truthy (GOOGLE_OAUTH_CLIENT_ID env) = false ∨
  Js.truthy (GOOGLE_OAUTH_CLIENT_SECRET env) = false ∨
  Js.truthy (GOOGLE_OAUTH_REFRESH_TOKEN env) = false.
Proof.
  unfold secrets_present.
  destruct (Js.truthy (GOOGLE_OAUTH_CLIENT_ID env)),
    (Js.truthy (GOOGLE_OAUTH_CLIENT_SECRET env)),
    (Js.truthy (GOOGLE_OAUTH_REFRESH_TOKEN env)); simpl; tauto.
Qed.

Lemma bad_ids_true accountId locationId :
  bad_ids accountId locationId = true ↔
  Js.truthy accountId = false ∨ Js.truthy locationId = false ∨
  Js.includes (default "" accountId) "YOUR_" = true ∨
  Js.includes (default "" locationId) "YOUR_" = true.
Proof.
  unfold bad_ids. rewrite !orb_true_iff, !negb_true_iff. tauto.
Qed.

Lemma token_of_not_MissingIds rp : token_of rp ≠ Throw MissingIds.
Proof.
  destruct rp as [reason|r]; simpl; [done|].
  destruct (ok r); [|done]. destruct (body_json r) as [msg|j]; [done|].
  by destruct (Js.truthy (access_token j)).
Qed.

Lemma getAccessToken_not_MissingIds env st :
  (getAccessToken upstream env st).1 ≠ Throw MissingIds.
Proof.
  destruct (secrets_present env) eqn:Hs.
  - rewrite getAccessToken_exchange by done. apply token_of_not_MissingIds.
  - by rewrite getAccessToken_missing.
Qed.

(** C9. With one of the three secrets missing the token acquisition throws
    the configuration error and leaves the state as it was: the upstream
    is not consulted and the log gains no exchange.  With the three
    present, a successful response whose body has no access token makes
    it throw an error of its own, whose message is neither that of the
    configuration error nor that of a refused exchange. *)
Theorem getAccessToken_errors (env : Env) (st : State W) :
  (Js.truthy (GOOGLE_OAUTH_CLIENT_ID env) = false ∨
   Js.truthy (GOOGLE_OAUTH_CLIENT_SECRET env) = false ∨
   Js.truthy (GOOGLE_OAUTH_REFRESH_TOKEN env) = false →
   getAccessToken upstream env st = (Throw MissingSecrets, st)) ∧
  (∀ r j,
     secrets_present env = true →
     (upstream (world st) (token_request env)).1 = Responds r →
     ok r = true → body_json r = Body j → Js.truthy (access_token j) = false →
     (getAccessToken upstream env st).1 = Throw NoAccessToken) ∧
  NoAccessToken ≠ MissingSecrets ∧
  message NoAccessToken ≠ message MissingSecrets ∧
  (∀ status text, message NoAccessToken ≠ message (TokenRefreshFailed status text)).
Proof.
  split; [|split; [|split; [|split]]].
  - intros Hs. apply getAccessToken_missing. by apply secrets_present_false.
  - intros r j Hs Hr Hok Hj Ht. rewrite getAccessToken_exchange by done.
    simpl. rewrite Hr. simpl. by rewrite Hok, Hj, Ht.
  - done.
  - done.
  - intros status text. simpl. discriminate.
Qed.

(** C2 (amended). With a missing or placeholder identifier the pipeline
    fails and issues no listing request.  The token acquisition runs
    first: the state the pipeline ends in is the one the token acquisition
    leaves, whose log has gained the token exchange when the three secrets
    are present and nothing otherwise; the error is the identifier
    configuration error when a token was obtained, and the error of the
    token acquisition when none was. *)
Theorem fetchLatestReviews_bad_ids (env : Env) (limit : Z)
    (accountId locationId : option string) (st : State W) :
  Js.truthy accountId = false ∨ Js.truthy locationId = false ∨
  Js.includes (default "" accountId) "YOUR_" = true ∨
  Js.includes (default "" locationId) "YOUR_" = true →
  ∃ e,
    fetchLatestReviews upstream env limit accountId locationId st =
      (Throw e, (getAccessToken upstream env st).2) ∧
    (∀ accessToken,
       (getAccessToken upstream env st).1 = Return accessToken → e = MissingIds) ∧
    (∀ e', (getAccessToken upstream env st).1 = Throw e' → e = e') ∧
    ∃ xs,
      log (getAccessToken upstream env st).2 = log st ++ xs ∧
      Forall (λ x, is_list_request x.1 = false) xs ∧
      (secrets_present env = false → xs = []) ∧
      (secrets_present env = true →
       xs = [(token_request env, (upstream (world st) (token_request env)).1)]).
Proof.
  intros Hbad%bad_ids_true. rewrite fetchLatestReviews_unfold, Hbad.
  assert (∃ xs,
    log (getAccessToken upstream env st).2 = log st ++ xs ∧
    Forall (λ x, is_list_request x.1 = false) xs ∧
    (secrets_present env = false → xs = []) ∧
    (secrets_present env = true →
     xs = [(token_request env, (upstream (world st) (token_request env)).1)]))
    as Hlog.
  { destruct (secrets_present env) eqn:Hs.
    - rewrite getAccessToken_exchange by done. eexists. split; [done|].
      split; [by repeat constructor|]. done.
    - rewrite getAccessToken_missing by done. exists []. rewrite app_nil_r.
      split; [done|]. split; [constructor|]. done. }
  destruct (getAccessToken upstream env st) as [[accessToken|e] st1]; simpl in *.
  - exists MissingIds. split; [done|]. split; [done|]. split; [done|]. exact Hlog.
  - exists e. split; [done|]. split; [done|]. split; [by intros ? [= <-]|]. exact Hlog.
Qed.

(** C10. On /reviews an identifier parameter that is present but empty
    is replaced by the environment's default; the identifiers so obtained
    are the ones the pipeline runs with; and the pipeline throws the
    identifier configuration error only when one of them is missing or
    holds the placeholder marker. *)
Theorem fetch_identifier_fallback (request : HttpRequest) (env : Env) (st : State W) :
  method request ≠ "OPTIONS" → pathname request = "/reviews" →
  let accountId := request_accountId request env in
  let locationId := request_locationId request env in
  let run := fetchLatestReviews upstream env (request_limit request)
               accountId locationId st in
  (searchParams_get (searchParams request) "accountId" = Some "" →
   accountId = GBP_ACCOUNT_ID env) ∧
  (searchParams_get (searchParams request) "locationId" = Some "" →
   locationId = GBP_LOCATION_ID env) ∧
  fetch upstream request env st = (respond env run.1, run.2) ∧
  (run.1 = Throw MissingIds →
   Js.truthy accountId = false ∨ Js.truthy locationId = false ∨
   Js.includes (default "" accountId) "YOUR_" = true ∨
   Js.includes (default "" locationId) "YOUR_" = true).
Proof.
  intros Hm Hp accountId locationId run.
  split; [|split; [|split]].
  - unfold accountId, request_accountId. by intros ->.
  - unfold locationId, request_locationId. by intros ->.
  - rewrite fetch_reviews by done. fold accountId locationId run.
    by destruct run as [[reviews|err] st'].
  - unfold run. rewrite fetchLatestReviews_unfold.
    pose proof (getAccessToken_not_MissingIds env st) as Htok.
    destruct (getAccessToken upstream env st) as [[accessToken|e] st1];
      [|simpl in *; congruence].
    destruct (bad_ids accountId locationId) eqn:Hbad; [intros _; by apply bad_ids_true|].
    pose proof (paginate_throws upstream (request_limit request)
                  (default "" accountId) (default "" locationId) accessToken
                  [] None st1 MissingIds) as Hthrows.
    destruct (paginate _ _ _ _ _ _ _ _) as [[all|e] st2]; simpl in *; [done|].
    intros [= ->]. destruct Hthrows as (rp & Hpage); [done|].
    exfalso. revert Hpage. unfold page_or_error.
    destruct rp as [reason|r]; [done|]. destruct (ok r); [|done].
    by destruct (body_json r).
Qed.

End ConfigurationFacts.

(** ** Star ratings *)

Lemma starEnumToNumber_labels :
  starEnumToNumber (Some "ONE") = Js.Num 1 ∧
  starEnumToNumber (Some "TWO") = Js.Num 2 ∧
  starEnumToNumber (Some "THREE") = Js.Num 3 ∧
  starEnumToNumber (Some "FOUR") = Js.Num 4 ∧
  starEnumToNumber (Some "FIVE") = Js.Num 5 ∧
  starEnumToNumber None = Js.Num 0.
Proof. by vm_compute. Qed.

Lemma star_map_lookup (s : string) :
  s ∉ ["ONE"; "TWO"; "THREE"; "FOUR"; "FIVE"] → star_map !! s = None.
Proof.
  intros Hs. unfold star_map.
  rewrite !lookup_insert_ne, lookup_singleton_ne; [done|intros <-; apply Hs; set_solver..].
Qed.

(** A label that is neither one of the five nor a name [Object.prototype]
    defines maps to 0. *)
Lemma starEnumToNumber_other (s : string) :
  s ∉ ["ONE"; "TWO"; "THREE"; "FOUR"; "FIVE"] → s ∉ Js.Object_prototype →
  starEnumToNumber (Some s) = Js.Num 0.
Proof.
  intros Hs Hp. unfold starEnumToNumber, Js.get. simpl.
  rewrite star_map_lookup by done. by rewrite decide_False.
Qed.

(** A label that [Object.prototype] defines maps to what it inherits. *)
Lemma starEnumToNumber_prototype (s : string) :
  s ∈ Js.Object_prototype → starEnumToNumber (Some s) = Js.Inherited s.
Proof.
  unfold Js.Object_prototype. rewrite elem_of_list_to_set. intros Hp.
  repeat (apply elem_of_cons in Hp as [->|Hp]; [by vm_compute|]).
  by apply elem_of_nil in Hp.
Qed.

(** C6. The claim reads: every input other than the five labels maps to 0.
    On the label "constructor" the table lookup finds the member every
    object inherits, which is truthy, and the function returns it. *)
Theorem starEnumToNumber_constructor :
  starEnumToNumber (Some "constructor") = Js.Inherited "constructor" ∧
  starEnumToNumber (Some "constructor") ≠ Js.Num 0.
Proof. split; [by vm_compute|]. vm_compute. discriminate. Qed.

(** ** The claims on concrete runs *)

Section Runs.
Import Fragment.
Local Existing Instance platform.

(** C1, as stated, fails.  With a limit of 3 and one page of five reviews,
    the five are accumulated, the pipeline returns the first three of them
    in descending order (a, c, b), and the three newest of the five are d,
    e and a. *)
Lemma fetchLatestReviews_not_the_newest :
  let run := fetchLatestReviews scripted env 3 (Some "123") (Some "456") (start one_page) in
  (paginate scripted 3 "123" "456" "tok" [] None
     (getAccessToken scripted env (start one_page)).2).1 = Return five ∧
  map reviewId <$> returned run.1 = Some [Some "a"; Some "c"; Some "b"] ∧
  map reviewId (sorted_then_truncated 3 five) = [Some "d"; Some "e"; Some "a"] ∧
  run.1 ≠ Return (sorted_then_truncated 3 five).
Proof.
  split; [by vm_compute|]. split; [by vm_compute|]. split; [by vm_compute|].
  vm_compute. discriminate.
Qed.

(** The run above, read through the amended statement: what it returns is
    a permutation of the first three of the five, in descending order. *)
Lemma fetchLatestReviews_sorts_truncated_witness :
  let run := fetchLatestReviews scripted env 3 (Some "123") (Some "456") (start one_page) in
  let out := default [] (returned run.1) in
  run = (Return out, run.2) ∧
  out ≡ₚ map normalize (Js.slice0 five 3) ∧ StronglySorted (not_after epoch) out.
Proof.
  intros run out.
  assert (run = (Return out, run.2)) as Hrun by (vm_compute; reflexivity).
  split; [exact Hrun|].
  destruct (fetchLatestReviews_sorts_truncated scripted env 3 (Some "123") (Some "456")
              (start one_page) run.2 out Hrun)
    as (accessToken & st1 & all & Htok & Hloop & _ & Hperm & Hsorted & _).
  vm_compute in Htok. injection Htok as <- <-.
  vm_compute in Hloop. injection Hloop as <-.
  split; [exact Hperm|exact Hsorted].
Defined.

(** C2, as stated, fails.  With the secrets present and no identifier,
    the pipeline throws the identifier configuration error after the token
    request has been issued. *)
Lemma identifiers_checked_after_token_request :
  let run := fetchLatestReviews scripted env 10 None None (start [token_reply "tok"]) in
  run.1 = Throw MissingIds ∧
  map fst (log run.2) = [TokenRequest "id" "secret" "refresh"] ∧
  log run.2 ≠ [].
Proof. split; [by vm_compute|]. split; [by vm_compute|]. vm_compute. discriminate. Qed.

(** With the token obtained and the account identifier missing, the
    pipeline throws the identifier configuration error. *)
Lemma fetchLatestReviews_bad_ids_witness :
  Js.truthy None = false ∧
  ∃ e,
    fetchLatestReviews scripted env 10 None (Some "456") (start [token_reply "tok"]) =
      (Throw e, (getAccessToken scripted env (start [token_reply "tok"])).2) ∧
    e = MissingIds.
Proof.
  split; [reflexivity|].
  destruct (fetchLatestReviews_bad_ids scripted env 10 None (Some "456")
              (start [token_reply "tok"]) (or_introl eq_refl))
    as (e & Hrun & Hids & _).
  exists e. split; [exact Hrun|]. apply (Hids "tok"). vm_compute. reflexivity.
Defined.

(** C3, as stated, fails.  POST /reviews is served as GET /reviews is, here
    with status 200; and OPTIONS on another path is answered with 204. *)
Lemma post_reviews_is_served :
  let response := (fetch scripted post_reviews env (start one_page)).1 in
  let preflight :=
    (fetch scripted {| method := "OPTIONS"; pathname := "/other"; searchParams := [] |}
       env (start [])).1 in
  resp_status response = 200 ∧ resp_status response ≠ 404 ∧
  resp_body response ≠ PlainText "Not found" ∧
  resp_status preflight = 204.
Proof.
  split; [by vm_compute|]. split; [vm_compute; discriminate|].
  split; [vm_compute; discriminate|by vm_compute].
Qed.

(** DELETE /other is answered with 404 and leaves the state as it was. *)
Lemma fetch_dispatch_witness :
  let request := {| method := "DELETE"; pathname := "/other"; searchParams := [] |} in
  method request ≠ "OPTIONS" ∧ pathname request ≠ "/reviews" ∧
  fetch scripted request env (start one_page) =
    (corsResponse (PlainText "Not found") env 404
       [("Content-Type", "text/plain; charset=utf-8")], start one_page).
Proof.
  intros request.
  assert (method request ≠ "OPTIONS") as Hm by discriminate.
  assert (pathname request ≠ "/reviews") as Hp by discriminate.
  split; [exact Hm|]. split; [exact Hp|].
  exact (proj1 (proj2 (fetch_dispatch scripted request env (start one_page))) Hm Hp).
Defined.

(** C4, as stated, fails.  Without a [limit] parameter the effective limit
    is 10, and the page request asks for 10 reviews. *)
Lemma absent_limit_is_ten :
  let request := get_reviews [] in
  let run := fetch scripted request env (start [token_reply "tok"; page_reply [] None]) in
  searchParams_get (searchParams request) "limit" = None ∧
  request_limit request = 10 ∧ request_limit request ≠ 1 ∧
  map fst (log run.2) =
    [TokenRequest "id" "secret" "refresh"; ListRequest "123" "456" 10 None "tok"].
Proof.
  split; [done|]. split; [by vm_compute|]. split; [vm_compute; discriminate|by vm_compute].
Qed.

(** No [limit] gives 10; [limit=abc] gives 1. *)
Lemma request_limit_witness :
  request_limit (get_reviews []) = 10 ∧ request_limit (get_reviews [("limit", "abc")]) = 1.
Proof.
  split.
  - apply (proj1 (request_limit_absent_or_not_finite (get_reviews []))); reflexivity.
  - apply (proj2 (request_limit_absent_or_not_finite (get_reviews [("limit", "abc")]))
             "abc"); reflexivity.
Defined.

(** C5, as stated, fails.  A review without a timestamp (epoch 0) is
    returned in front of a review from before 1970, whose epoch is not 0;
    and between them stands a review whose timestamp does not parse, whose
    [time] is NaN, which no number is at least as large as. *)
Lemma epoch_zero_before_negative_epoch :
  let run := fetchLatestReviews scripted env 3 (Some "123") (Some "456")
               (start [token_reply "tok"; page_reply odd None]) in
  ∃ x z y,
    run.1 = Return [x; z; y] ∧
    time x = Js.At 0 ∧ time z = Js.Invalid ∧ time y = Js.At (-1) ∧
    time y ≠ Js.At 0 ∧ Js.ge (time x) (time z) = false.
Proof.
  eexists _, _, _. split; [vm_compute; reflexivity|]. simpl.
  split; [done|]. split; [done|]. split; [done|]. split; [discriminate|done].
Qed.

(** On the page of five, the first review returned is not older than the
    third. *)
Lemma fetchLatestReviews_descending_witness :
  let run := fetchLatestReviews scripted env 3 (Some "123") (Some "456") (start one_page) in
  let out := default [] (returned run.1) in
  run = (Return out, run.2) ∧
  ∃ a b, out !! 0%nat = Some a ∧ out !! 2%nat = Some b ∧ epoch b ≤ epoch a.
Proof.
  intros run out.
  assert (run = (Return out, run.2)) as Hrun by (vm_compute; reflexivity).
  split; [exact Hrun|].
  destruct (fetchLatestReviews_descending scripted env 3 (Some "123") (Some "456")
              (start one_page) run.2 out Hrun) as [Hdesc _].
  eexists _, _. split; [vm_compute; reflexivity|]. split; [vm_compute; reflexivity|].
  apply (Hdesc 0%nat 2%nat); [lia|vm_compute; reflexivity..].
Defined.

(** The upstream of full pages behaves normally. *)
Lemma full_pages_normal : normal full_pages.
Proof.
  intros w [|a l ps pt b] a' l' ps' pt' b' rs next; simpl; [discriminate|].
  intros [= <- <- <- <- <-] Hps [= <- _]. rewrite length_replicate. lia.
Qed.

(** With full pages and a limit of 120 the loop issues at most three
    requests. *)
Lemma paginate_terminates_witness :
  normal full_pages ∧
  ∃ xs,
    log (paginate full_pages 120 "123" "456" "tok" [] None {| world := (); log := [] |}).2
      = xs ∧
    (length xs ≤ 3)%nat.
Proof.
  split; [exact full_pages_normal|].
  destruct (paginate_terminates full_pages 120 "123" "456" "tok" [] None
              {| world := (); log := [] |}) as (xs & Hlog & _ & _ & _ & Hceil).
  exists xs. split; [exact Hlog|]. exact (Hceil full_pages_normal).
Defined.

(** With [limit=3] and a page of five, the response carries at most three
    reviews. *)
Lemma fetch_bounded_witness :
  let result := fetch scripted (get_reviews [("limit", "3")]) env (start one_page) in
  ∃ reviews, resp_body result.1 = JsonReviews reviews ∧ Z.of_nat (length reviews) ≤ 3.
Proof.
  intros result. eexists. split; [vm_compute; reflexivity|].
  refine (proj1 (proj2 (fetch_bounded scripted (get_reviews [("limit", "3")]) env
                          (start one_page))) _ _).
  vm_compute. reflexivity.
Defined.

(** Without the client secret no request is issued; a success response
    without a token is refused with the error of its own. *)
Lemma getAccessToken_errors_witness :
  getAccessToken scripted env_without_secret (start [token_reply "tok"]) =
    (Throw MissingSecrets, start [token_reply "tok"]) ∧
  (getAccessToken scripted env (start [page_reply [] None])).1 = Throw NoAccessToken.
Proof.
  split.
  - apply (proj1 (getAccessToken_errors scripted env_without_secret
                    (start [token_reply "tok"]))).
    right. left. reflexivity.
  - eapply (proj1 (proj2 (getAccessToken_errors scripted env
                            (start [page_reply [] None])))); reflexivity.
Defined.

(** An empty [accountId] parameter is replaced by the environment's. *)
Lemma fetch_identifier_fallback_witness :
  let request := get_reviews [("accountId", ""); ("locationId", "456")] in
  method request ≠ "OPTIONS" ∧ pathname request = "/reviews" ∧
  searchParams_get (searchParams request) "accountId" = Some "" ∧
  request_accountId request env = Some "123".
Proof.
  intros request.
  assert (method request ≠ "OPTIONS") as Hm by discriminate.
  split; [exact Hm|]. split; [reflexivity|]. split; [reflexivity|].
  exact (proj1 (fetch_identifier_fallback scripted request env (start one_page)
                  Hm eq_refl) eq_refl).
Defined.

End Runs.

(** * Further properties

    What follows covers the rest of the worker: the helpers on their own,
    the shape of every response, and what the log of a request holds. *)

(** ** Vocabulary *)

(** A missing identifier, an empty one, or one that holds the placeholder
    marker somewhere. *)
Definition refused (v : option string) : Prop :=
  v = None ∨ v = Some "" ∨ ∃ pre post, v = Some (pre +:+ "YOUR_" +:+ post).

(** The label of a star rating. *)
Definition star_label (n : Z) : option string :=
  match n with
  | 1 => Some "ONE"
  | 2 => Some "TWO"
  | 3 => Some "THREE"
  | 4 => Some "FOUR"
  | 5 => Some "FIVE"
  | _ => None
  end.

(** The errors the worker throws itself, by the place that throws them. *)
Inductive Thrower : Type :=
| ByMissingSecrets
| ByTokenRefreshFailed
| ByNoAccessToken
| ByMissingIds
| ByListFailed.

Definition thrower (e : Error) : option Thrower :=
  match e with
  | MissingSecrets => Some ByMissingSecrets
  | TokenRefreshFailed _ _ => Some ByTokenRefreshFailed
  | NoAccessToken => Some ByNoAccessToken
  | MissingIds => Some ByMissingIds
  | ListFailed _ _ => Some ByListFailed
  | Runtime _ => None
  end.

(** The four headers [corsResponse] sets. *)
Definition cors_headers (env : Env) : list (string * string) :=
  [ ("Access-Control-Allow-Origin", Js.or_default (ALLOWED_ORIGIN env) "*");
    ("Access-Control-Allow-Methods", "GET,OPTIONS");
    ("Access-Control-Allow-Headers", "Content-Type,Authorization");
    ("Access-Control-Max-Age", "86400") ].

(** ** The helpers *)

Lemma startsWith_append p s :
  Js.startsWith p s = true ↔ ∃ post, s = p +:+ post.
Proof.
  revert s. induction p as [|a p IH]; intros s; simpl.
  - split; [by exists s|done].
  - destruct s as [|b s]; simpl.
    + split; [done|]. by intros [post [=]].
    + rewrite andb_true_iff, IH. split.
      * intros [Hab%Ascii.eqb_eq [post ->]]. subst. by exists post.
      * intros [post [= -> ->]]. split; [apply Ascii.eqb_refl|by exists post].
Qed.

(** [includes] is the substring relation. *)
Lemma includes_substring s p :
  Js.includes s p = true ↔ ∃ pre post, s = pre +:+ p +:+ post.
Proof.
  induction s as [|c s IH]; simpl.
  - rewrite orb_false_r, startsWith_append. split.
    + intros [post ->]. by exists "", post.
    + intros (pre & post & Heq). destruct pre; [by exists post|done].
  - rewrite orb_true_iff, startsWith_append, IH. split.
    + intros [[post ->]|(pre & post & ->)]; [by exists "", post|].
      by exists (String c pre), post.
    + intros (pre & post & Heq). destruct pre as [|c' pre]; simpl in Heq.
      * left. by exists post.
      * injection Heq as -> ->. right. by exists pre, post.
Qed.

(** X1. The identifier check refuses a pair of identifiers exactly when
    one of them is missing, empty, or holds "YOUR_" as a substring, at any
    position. *)
Theorem bad_ids_refused (accountId locationId : option string) :
  bad_ids accountId locationId = true ↔ refused accountId ∨ refused locationId.
Proof.
  assert (∀ v, negb (Js.truthy v) || Js.includes (default "" v) "YOUR_" = true ↔ refused v)
    as Hone.
  { intros v. rewrite orb_true_iff, negb_true_iff, includes_substring. unfold refused.
    destruct v as [s|]; simpl.
    - split.
      + intros [Hs%negb_false_iff%String.eqb_eq|(pre & post & ->)]; [subst; auto|].
        right. right. by exists pre, post.
      + intros [|[[= ->]|(pre & post & [= ->])]]; [done|by left|].
        right. by exists pre, post.
    - split; [auto|]. auto. }
  rewrite <- !Hone. unfold bad_ids.
  destruct (Js.truthy accountId), (Js.truthy locationId),
    (Js.includes (default "" accountId) "YOUR_"),
    (Js.includes (default "" locationId) "YOUR_"); simpl; intuition congruence.
Qed.

Lemma trunc_lower (q : Q) (z : Z) : (inject_Z z <= q)%Q → z ≤ Js.trunc q.
Proof.
  unfold Qle, Js.trunc. destruct q as [n d]. simpl.
  intros Hle. Z.to_euclidean_division_equations. nia.
Qed.

Lemma trunc_upper (q : Q) (z : Z) : (q <= inject_Z z)%Q → Js.trunc q ≤ z.
Proof.
  unfold Qle, Js.trunc. destruct q as [n d]. simpl.
  intros Hle. Z.to_euclidean_division_equations. nia.
Qed.

Lemma trunc_inject_Z (z : Z) : Js.trunc (inject_Z z) = z.
Proof. unfold Js.trunc. simpl. apply Z.quot_1_r. Qed.

Section ClampFacts.
Context `{Platform}.

(** X2. Between bounds [min <= max], [clampInt] gives [max] for a value
    that converts to a number at least [max], [min] for one that converts
    to a number at most [min], and the integer itself for one that
    converts to an integer between the two. *)
Theorem clampInt_saturates (value : string) (min max : Z) (q : Q) :
  min ≤ max → Number value = Js.Finite q →
  ((inject_Z max <= q)%Q → clampInt value min max = max) ∧
  ((q <= inject_Z min)%Q → clampInt value min max = min) ∧
  (∀ z, q = inject_Z z → min ≤ z ≤ max → clampInt value min max = z).
Proof.
  intros Hle Hq. unfold clampInt. rewrite Hq. split; [|split].
  - intros Hmax%trunc_lower. lia.
  - intros Hlow%trunc_upper. lia.
  - intros z -> Hz. rewrite trunc_inject_Z. lia.
Qed.

End ClampFacts.

(** X3. A rating is a number from 0 to 5, or the member the label inherits
    from [Object.prototype]; and the five labels and the numbers 1 to 5
    correspond one to one: a label maps to a number other than 0 exactly
    when it is the label of that number. *)
Theorem starEnumToNumber_round_trip (s : string) (n : Z) :
  ((∃ m, starEnumToNumber (Some s) = Js.Num m ∧ 0 ≤ m ≤ 5) ∨
   (s ∈ Js.Object_prototype ∧ starEnumToNumber (Some s) = Js.Inherited s)) ∧
  (starEnumToNumber (Some s) = Js.Num n ∧ n ≠ 0 ↔ star_label n = Some s).
Proof.
  destruct (decide (s ∈ ["ONE"; "TWO"; "THREE"; "FOUR"; "FIVE"])) as [Hs|Hs].
  - assert (∃ m, 1 ≤ m ≤ 5 ∧ star_label m = Some s ∧
                 starEnumToNumber (Some s) = Js.Num m) as (m & Hm & Hlabel & Hstar).
    { repeat (apply elem_of_cons in Hs as [->|Hs];
              [eexists; split; [|split; [|by vm_compute]]; [lia|done]|]).
      by apply elem_of_nil in Hs. }
    split; [left; exists m; split; [done|lia]|].
    rewrite Hstar. split.
    + by intros [[= <-] _].
    + intros Hn. assert (n = m) as ->; [|split; [done|lia]].
      destruct n as [|[[[]|[]|]|[[]|[]|]|]|]; simpl in Hn; try done;
        injection Hn as <-; revert Hlabel;
        destruct m as [|[[[]|[]|]|[[]|[]|]|]|]; simpl; congruence.
  - assert (star_label n ≠ Some s) as Hlabel.
    { intros Hn. apply Hs.
      destruct n as [|[[[]|[]|]|[[]|[]|]|]|]; simpl in Hn; try done;
        injection Hn as <-; set_solver. }
    destruct (decide (s ∈ Js.Object_prototype)) as [Hp|Hp].
    + rewrite starEnumToNumber_prototype by done. split; [by right|].
      split; [by intros [[=] _]|done].
    + rewrite starEnumToNumber_other by done. split; [left; exists 0; split; [done|lia]|].
      split; [by intros [[= <-] ?]|done].
Qed.

Section NormalizeFacts.
Context `{Platform}.

(** X4. A normalised review always names an author: the reviewer's display
    name when there is a non-empty one, "Anonymous" otherwise.  Its
    timestamps are never the empty string, which becomes [null]; a review
    without creation timestamp has epoch 0, and only a review with one can
    have the epoch NaN. *)
Theorem normalize_defaults (r : Raw.Review) :
  author_name (normalize r) ≠ "" ∧
  (author_name (normalize r) = "Anonymous" ∨
   ∃ reviewer, Raw.reviewer r = Some reviewer ∧
               Raw.displayName reviewer = Some (author_name (normalize r))) ∧
  createTime (normalize r) ≠ Some "" ∧
  updateTime (normalize r) ≠ Some "" ∧
  (createTime (normalize r) = None → time (normalize r) = Js.At 0) ∧
  (time (normalize r) = Js.Invalid →
   ∃ s, createTime (normalize r) = Some s ∧ Raw.createTime r = Some s ∧
        Date_getTime s = Js.Invalid).
Proof.
  assert (∀ v, Js.or v None ≠ Some "") as Hor.
  { intros [[|c s]|]; by vm_compute. }
  assert (∀ v d, d ≠ "" → Js.or_default v d ≠ "" ∧
                          (Js.or_default v d = d ∨ v = Some (Js.or_default v d)))
    as Hdef.
  { intros [[|c s]|] d Hd; unfold Js.or_default, Js.or; simpl; auto. }
  destruct (Hdef (Raw.reviewer r ≫= Raw.displayName) "Anonymous") as [Hname Hfrom];
    [done|].
  split; [exact Hname|]. split.
  { destruct Hfrom as [Hanon|Hsome]; [by left|right]. revert Hsome.
    change (author_name (normalize r))
      with (Js.or_default (Raw.reviewer r ≫= Raw.displayName) "Anonymous").
    generalize (Js.or_default (Raw.reviewer r ≫= Raw.displayName) "Anonymous").
    intros name Hsome. destruct (Raw.reviewer r) as [reviewer|]; [|done].
    by exists reviewer. }
  split; [apply Hor|]. split; [apply Hor|].
  unfold normalize. simpl.
  destruct (Raw.createTime r) as [[|c s]|]; simpl; [by split|..|by split].
  split; [by vm_compute|].
  destruct (Date_getTime (String c s)) eqn:Hdate; [|done].
  intros _. exists (String c s). by vm_compute.
Qed.

(** X5. The epoch of a review whose creation timestamp parses is the
    number of whole seconds of its time value, rounded down also before
    1970: [1000 * t <= ms < 1000 * t + 1000]. *)
Theorem normalize_time_floor (r : Raw.Review) (s : string) (ms : Z) :
  Raw.createTime r = Some s → s ≠ "" → Date_getTime s = Js.At ms →
  ∃ t, time (normalize r) = Js.At t ∧ 1000 * t ≤ ms < 1000 * t + 1000.
Proof.
  intros Hr Hs Hms. unfold normalize. simpl. rewrite Hr. simpl.
  destruct s as [|c s]; [done|]. simpl. rewrite Hms.
  eexists. split; [done|]. Z.to_euclidean_division_equations. lia.
Qed.

End NormalizeFacts.

(** X6. The messages of the errors the worker throws itself tell the
    places that throw them apart: two such errors with one message were
    thrown at one place. *)
Theorem message_thrower (e1 e2 : Error) (t1 t2 : Thrower) :
  thrower e1 = Some t1 → thrower e2 = Some t2 → message e1 = message e2 → t1 = t2.
Proof.
  destruct e1, e2; simpl; intros [= <-] [= <-]; try done; discriminate.
Qed.

(** ** The shape of a response *)

Section ResponseFacts.
Context `{Platform} {W : Type} (upstream : W → Request → Reply * W).

(** X7. Every response of the handler is one of four: 204 without body,
    200 with reviews, 500 with the message of an error, both as JSON, or
    404 with the text "Not found".  Its headers are the content type, if
    any, followed by the four cross-origin headers, the allowed origin
    being the environment's or "*"; no header name occurs twice. *)
Theorem fetch_response_shape (request : HttpRequest) (env : Env) (st : State W) :
  let r := (fetch upstream request env st).1 in
  ∃ content_type,
    resp_headers r = content_type ++ cors_headers env ∧
    NoDup (resp_headers r).*1 ∧
    ((resp_status r = 204 ∧ resp_body r = NoBody ∧ content_type = []) ∨
     (resp_status r = 200 ∧ (∃ reviews, resp_body r = JsonReviews reviews) ∧
      content_type = [("Content-Type", "application/json; charset=utf-8")]) ∨
     (resp_status r = 500 ∧ (∃ e, resp_body r = JsonError (message e)) ∧
      content_type = [("Content-Type", "application/json; charset=utf-8")]) ∨
     (resp_status r = 404 ∧ resp_body r = PlainText "Not found" ∧
      content_type = [("Content-Type", "text/plain; charset=utf-8")])).
Proof.
  intros r. subst r. unfold fetch.
  destruct (String.eqb (method request) "OPTIONS").
  { exists []. split; [done|]. split; [|by left].
    simpl. by apply (bool_decide_unpack _). }
  destruct (String.eqb (pathname request) "/reviews").
  2:{ eexists. split; [done|]. split; [|by right; right; right].
      simpl. by apply (bool_decide_unpack _). }
  destruct (fetchLatestReviews _ _ _ _ _ _) as [[reviews|e] st'].
  - eexists. split; [done|]. split; [|right; left; eauto].
    simpl. by apply (bool_decide_unpack _).
  - eexists. split; [done|]. split; [|right; right; left; eauto].
    simpl. by apply (bool_decide_unpack _).
Qed.

End ResponseFacts.

(** ** What the log of a request holds *)

(** What a run of the loop entered with [all] comes to, read from its
    exchanges: the error of the first exchange without a page, or the
    pages appended to [all]. *)
Fixpoint outcome_of (all : list Raw.Review) (xs : list (Request * Reply))
    : Outcome (list Raw.Review) :=
  match xs with
  | [] => Return all
  | (_, rp) :: rest =>
      match page_or_error rp with
      | inl e => Throw e
      | inr (rs, _) => outcome_of (all ++ rs) rest
      end
  end.

(** The page token a request carries. *)
Definition request_pageToken (rq : Request) : option string :=
  match rq with
  | ListRequest _ _ _ pageToken _ => pageToken
  | TokenRequest _ _ _ => None
  end.

(** The continuation token a reply hands over. *)
Definition next_of (rp : Reply) : option string :=
  match page rp with
  | Some (_, next) => next
  | None => None
  end.

(** Each request carries the token the reply before it handed over, the
    first one the token the loop was entered with. *)
Fixpoint chained (pageToken : option string) (xs : list (Request * Reply)) : Prop :=
  match xs with
  | [] => True
  | (rq, rp) :: rest =>
      request_pageToken rq = Js.or pageToken None ∧ chained (next_of rp) rest
  end.

(** The end of the pipeline: truncation, normalisation and sort. *)
Definition finish `{Platform} (limit : Z) (o : Outcome (list Raw.Review))
    : Outcome (list Review) :=
  match o with
  | Return all => Return (Js.sort newest_first (map normalize (Js.slice0 all limit)))
  | Throw e => Throw e
  end.

Section LogFacts.
Context `{Platform} {W : Type} (upstream : W → Request → Reply * W).

Lemma paginate_chain limit accountId locationId accessToken all pageToken st :
  let r := paginate upstream limit accountId locationId accessToken all pageToken st in
  ∃ xs, log r.2 = log st ++ xs ∧ chained pageToken xs ∧ r.1 = outcome_of all xs.
Proof.
  simpl. revert all pageToken st.
  apply (paginate_ind upstream limit accountId locationId accessToken
           (λ all pageToken st r,
              ∃ xs, log r.2 = log st ++ xs ∧ chained pageToken xs ∧
                    r.1 = outcome_of all xs)).
  - intros all pageToken st _. exists []. simpl. by rewrite app_nil_r.
  - intros all pageToken st e rq rp _ Hpage. exists [(rq, rp)]. simpl.
    by rewrite Hpage.
  - intros all pageToken st rs next rq rp _ Hpage _. exists [(rq, rp)]. simpl.
    unfold page in Hpage. destruct (page_or_error rp) as [|[rs' next']]; [done|].
    by injection Hpage as -> ->.
  - intros all pageToken st rs next rq rp _ Hpage _ (xs & Hlog & Hchain & Hout).
    exists ((rq, rp) :: xs). split; [|split].
    + rewrite Hlog. simpl. by rewrite <- app_assoc.
    + simpl. split; [done|]. unfold next_of. by rewrite Hpage.
    + rewrite Hout. simpl. unfold page in Hpage.
      destruct (page_or_error rp) as [|[rs' next']]; [done|].
      by injection Hpage as -> ->.
Qed.

(** All that is known of the exchanges of a run of the loop. *)
Lemma paginate_log limit accountId locationId accessToken all pageToken st xs :
  let r := paginate upstream limit accountId locationId accessToken all pageToken st in
  log r.2 = log st ++ xs →
  loop_trace limit accountId locationId accessToken (length all) xs ∧
  answered_by upstream xs ∧ chained pageToken xs ∧ r.1 = outcome_of all xs.
Proof.
  simpl. intros Hlog.
  destruct (paginate_trace upstream limit accountId locationId accessToken
              all pageToken st) as (xs1 & Hlog1 & Htrace & Hans & _).
  destruct (paginate_chain limit accountId locationId accessToken all pageToken st)
    as (xs2 & Hlog2 & Hchain & Hout).
  rewrite Hlog in Hlog1, Hlog2.
  apply app_inv_head in Hlog1 as <-. apply app_inv_head in Hlog2 as <-. done.
Qed.

(** All that is known of the exchanges of the pipeline: none without the
    secrets; otherwise the token exchange, followed, when it gives a token
    and the identifiers pass, by those of a run of the loop, which decide
    the result. *)
Lemma fetchLatestReviews_exchanges env limit accountId locationId st xs :
  let r := fetchLatestReviews upstream env limit accountId locationId st in
  let rp0 := (upstream (world st) (token_request env)).1 in
  log r.2 = log st ++ xs →
  if secrets_present env then
    ∃ xs2,
      xs = (token_request env, rp0) :: xs2 ∧
      match token_of rp0 with
      | Throw e => xs2 = [] ∧ r.1 = Throw e
      | Return accessToken =>
          if bad_ids accountId locationId then xs2 = [] ∧ r.1 = Throw MissingIds
          else
            loop_trace limit (default "" accountId) (default "" locationId)
                       accessToken 0 xs2 ∧
            answered_by upstream xs2 ∧ chained None xs2 ∧
            r.1 = finish limit (outcome_of [] xs2)
      end
  else xs = [] ∧ r.1 = Throw MissingSecrets.
Proof.
  simpl. rewrite fetchLatestReviews_unfold.
  destruct (secrets_present env) eqn:Hs.
  - rewrite getAccessToken_exchange by done.
    set (rp0 := (upstream (world st) (token_request env)).1).
    set (st1 := after_exchange upstream st (token_request env)).
    assert (log st1 = log st ++ [(token_request env, rp0)]) as Hst1 by done.
    destruct (token_of rp0) as [accessToken|e].
    2:{ intros Hlog.
        assert (log st ++ [(token_request env, rp0)] = log st ++ xs) as Heq by exact Hlog.
        apply app_inv_head in Heq as <-. by exists []. }
    destruct (bad_ids accountId locationId).
    { intros Hlog.
      assert (log st ++ [(token_request env, rp0)] = log st ++ xs) as Heq by exact Hlog.
      apply app_inv_head in Heq as <-. by exists []. }
    destruct (paginate_trace upstream limit (default "" accountId) (default "" locationId)
                accessToken [] None st1) as (xs2 & Hlog2 & _).
    pose proof (paginate_log limit (default "" accountId) (default "" locationId)
                  accessToken [] None st1 xs2 Hlog2) as (Htrace & Hans & Hchain & Hout).
    intros Hlog. exists xs2. split.
    + apply (app_inv_head (log st)). rewrite <- Hlog.
      destruct (paginate _ _ _ _ _ _ _ _) as [[all|e] st2]; simpl in *;
        by rewrite Hlog2, Hst1, <- app_assoc.
    + split; [done|]. split; [done|]. split; [done|].
      destruct (paginate _ _ _ _ _ _ _ _) as [[all|e] st2]; simpl in *; by rewrite <- Hout.
  - rewrite getAccessToken_missing by done. simpl.
    rewrite <- (app_nil_r (log st)) at 1. by intros <-%app_inv_head.
Qed.

End LogFacts.

Section ExchangeFacts.
Context (limit : Z) (accountId locationId accessToken : string).

Local Abbreviation run_of := (loop_trace limit accountId locationId accessToken).

(** Every exchange of a run but the last asked for more. *)
Lemma loop_trace_more count pre x post :
  run_of count (pre ++ x :: post) → Forall (λ y, asks_for_more y.2 = true) pre.
Proof.
  revert count. induction pre as [|[rq rp] pre IH]; intros count; [constructor|].
  simpl. intros (_ & _ & Hrest).
  destruct (asks_for_more rp) eqn:Hmore; [|by destruct pre].
  constructor; [done|]. by eapply IH.
Qed.

Lemma loop_trace_all_requests count xs rq rp :
  run_of count xs → (rq, rp) ∈ xs →
  ∃ pageSize pageToken,
    rq = ListRequest accountId locationId pageSize pageToken accessToken ∧
    1 ≤ pageSize ≤ 50.
Proof.
  intros Htrace (pre & post & ->)%list_elem_of_split.
  apply loop_trace_split in Htrace as (Hlt & [pt ->] & _). simpl in Hlt.
  eexists _, pt. split; [done|]. lia.
Qed.

End ExchangeFacts.

Lemma outcome_of_more all pre rest :
  Forall (λ y, asks_for_more y.2 = true) pre →
  outcome_of all (pre ++ rest) = outcome_of (all ++ pages pre) rest.
Proof.
  intros Hpre. revert all. induction Hpre as [|[rq rp] pre Hx _ IH]; intros all.
  - unfold pages. simpl. by rewrite app_nil_r.
  - simpl in *. apply asks_for_more_page in Hx as (rs & next & Hpage & _).
    unfold pages. simpl. rewrite Hpage. unfold page in Hpage.
    destruct (page_or_error rp) as [|[rs' next']]; [done|].
    injection Hpage as -> ->. rewrite IH. by rewrite <- app_assoc.
Qed.

Lemma outcome_of_Return all xs all' :
  outcome_of all xs = Return all' →
  all' = all ++ pages xs ∧ Forall (λ x, is_Some (page x.2)) xs.
Proof.
  revert all. induction xs as [|[rq rp] xs IH]; intros all; simpl.
  - intros [= <-]. unfold pages. simpl. by rewrite app_nil_r.
  - destruct (page_or_error rp) as [e|[rs next]] eqn:Hpage; [done|].
    intros (-> & Hxs)%IH. split.
    + unfold pages, page. simpl. rewrite Hpage. by rewrite <- app_assoc.
    + constructor; [|done]. unfold page. simpl. rewrite Hpage. by eexists.
Qed.


Section TokenFacts.
Context `{Platform} {W : Type} (upstream : W → Request → Reply * W).

(** X8. When the token acquisition returns a token, the three secrets are
    set and not empty; exactly one exchange was added to the log, the
    token request carrying the three of them; its reply was a success
    with a JSON body; and the token returned is the access token of that
    body, which is not empty. *)
Theorem getAccessToken_Return (env : Env) (st st' : State W) (accessToken : string) :
  getAccessToken upstream env st = (Return accessToken, st') →
  accessToken ≠ "" ∧
  st' = after_exchange upstream st (token_request env) ∧
  (∃ id secret refresh,
     GOOGLE_OAUTH_CLIENT_ID env = Some id ∧ id ≠ "" ∧
     GOOGLE_OAUTH_CLIENT_SECRET env = Some secret ∧ secret ≠ "" ∧
     GOOGLE_OAUTH_REFRESH_TOKEN env = Some refresh ∧ refresh ≠ "" ∧
     token_request env = TokenRequest id secret refresh) ∧
  ∃ resp json,
    (upstream (world st) (token_request env)).1 = Responds resp ∧
    ok resp = true ∧ body_json resp = Body json ∧
    access_token json = Some accessToken.
Proof.
  assert (∀ v : option string, Js.truthy v = true → ∃ s, v = Some s ∧ s ≠ "") as Htruthy.
  { intros [s|]; [|done]. simpl. intros Hs%negb_true_iff%String.eqb_neq. eauto. }
  destruct (secrets_present env) eqn:Hs.
  2:{ by rewrite getAccessToken_missing. }
  rewrite getAccessToken_exchange by done. intros [= Htok <-].
  unfold token_of in Htok.
  destruct ((upstream (world st) (token_request env)).1) as [reason|resp]; [done|].
  destruct (ok resp) eqn:Hok; [|done].
  destruct (body_json resp) as [msg|json] eqn:Hjson; [done|].
  destruct (Js.truthy (access_token json)) eqn:Htoken; [|done].
  injection Htok as <-.
  destruct (Htruthy _ Htoken) as (tok & Htok & Hne). rewrite Htok. simpl.
  split; [done|]. split; [done|]. split; [|by exists resp, json].
  unfold secrets_present in Hs. apply andb_prop in Hs as [[Hid Hsecret]%andb_prop Hrefresh].
  destruct (Htruthy _ Hid) as (id & Hid' & ?).
  destruct (Htruthy _ Hsecret) as (secret & Hsecret' & ?).
  destruct (Htruthy _ Hrefresh) as (refresh & Hrefresh' & ?).
  exists id, secret, refresh. unfold token_request.
  rewrite Hid', Hsecret', Hrefresh'. done.
Qed.

(** X9. When the token endpoint answers with a status outside 200..299,
    the pipeline stops there: the handler answers 500 with the message
    "OAuth token refresh failed: ", the status and the text of the answer,
    and the log has gained the token exchange alone, so no listing request
    was issued. *)
Theorem token_refused (request : HttpRequest) (env : Env) (st : State W) (resp : Response) :
  method request ≠ "OPTIONS" → pathname request = "/reviews" →
  secrets_present env = true →
  (upstream (world st) (token_request env)).1 = Responds resp → ok resp = false →
  fetch upstream request env st =
    (corsResponse
       (JsonError ("OAuth token refresh failed: " +:+ pretty (status resp) +:+ " "
                   +:+ body_text resp))
       env 500 [("Content-Type", "application/json; charset=utf-8")],
     after_exchange upstream st (token_request env)) ∧
  log (fetch upstream request env st).2 =
    log st ++ [(token_request env, Responds resp)].
Proof.
  intros Hm Hp Hs Hresp Hok.
  rewrite fetch_reviews, fetchLatestReviews_unfold, getAccessToken_exchange by done.
  rewrite Hresp. simpl. rewrite Hok. simpl. by rewrite Hresp.
Qed.

End TokenFacts.

Section RequestFacts.
Context `{Platform} {W : Type} (upstream : W → Request → Reply * W).



(** The exchanges of the pipeline when a listing request is among them:
    the token exchange gave a token, the identifiers passed the check,
    and the rest is a run of the loop. *)
Lemma listing_exchanges env limit accountId locationId st xs pre rq rp post :
  let r := fetchLatestReviews upstream env limit accountId locationId st in
  log r.2 = log st ++ xs → xs = pre ++ (rq, rp) :: post → is_list_request rq = true →
  ∃ rp0 accessToken pre',
    pre = (token_request env, rp0) :: pre' ∧
    token_of rp0 = Return accessToken ∧
    bad_ids accountId locationId = false ∧
    loop_trace limit (default "" accountId) (default "" locationId) accessToken 0
               (pre' ++ (rq, rp) :: post) ∧
    answered_by upstream (pre' ++ (rq, rp) :: post) ∧
    chained None (pre' ++ (rq, rp) :: post) ∧
    r.1 = finish limit (outcome_of [] (pre' ++ (rq, rp) :: post)).
Proof.
  simpl. intros Hlog -> Hrq.
  pose proof (fetchLatestReviews_exchanges upstream env limit accountId locationId st _ Hlog)
    as Hxs. simpl in Hxs.
  destruct (secrets_present env); [|by destruct Hxs as [? _], pre].
  destruct Hxs as (xs2 & Heq & Hrest).
  destruct pre as [|x pre]; simpl in Heq.
  { injection Heq as -> _ _. done. }
  injection Heq as -> <-.
  destruct (token_of _) as [accessToken|e] eqn:Htok; [|by destruct Hrest as [? _], pre].
  destruct (bad_ids accountId locationId); [by destruct Hrest as [? _], pre|].
  destruct Hrest as (Htrace & Hans & Hchain & Hout).
  by eexists _, accessToken, pre.
Qed.



(** X12. A listing exchange whose response has a status outside 200..299
    is the last exchange of the pipeline, which throws the listing error
    with that status and the text of the response: no further request is
    issued and no partial result is returned. *)
Theorem list_failure_aborts (env : Env) (limit : Z)
    (accountId locationId : option string) (st : State W)
    (xs pre post : list (Request * Reply)) (rq : Request) (resp : Response) :
  log (fetchLatestReviews upstream env limit accountId locationId st).2 = log st ++ xs →
  xs = pre ++ (rq, Responds resp) :: post → is_list_request rq = true →
  ok resp = false →
  post = [] ∧
  (fetchLatestReviews upstream env limit accountId locationId st).1 =
    Throw (ListFailed (status resp) (body_text resp)).
Proof.
  intros Hlog Hxs Hrq Hok.
  destruct (listing_exchanges env limit accountId locationId st xs pre rq _ post
              Hlog Hxs Hrq) as (rp0 & tok & pre' & _ & _ & _ & Htrace & _ & _ & Hout).
  pose proof (loop_trace_more _ _ _ _ _ _ _ _ Htrace) as Hmore.
  apply loop_trace_split in Htrace as (_ & _ & Hpost).
  assert (asks_for_more (Responds resp) = false) as Hno.
  { unfold asks_for_more, page. simpl. by rewrite Hok. }
  assert (post = []) as ->.
  { destruct post; [done|]. destruct Hpost as [Hpost _].
    destruct Hpost as [? _]; [done|congruence]. }
  split; [done|]. rewrite Hout, outcome_of_more by done. simpl. by rewrite Hok.
Qed.

(** X13. When the pipeline returns, its log is the token exchange followed
    by listing exchanges each of which delivered a page, and what it
    returns is computed from the reviews of these pages, concatenated in
    the order they arrived in. *)
Theorem returned_reviews_from_pages (env : Env) (limit : Z)
    (accountId locationId : option string) (st st' : State W)
    (xs : list (Request * Reply)) (out : list Review) :
  fetchLatestReviews upstream env limit accountId locationId st = (Return out, st') →
  log st' = log st ++ xs →
  ∃ rp0 xs2,
    xs = (token_request env, rp0) :: xs2 ∧
    Forall (λ x, is_list_request x.1 = true ∧ is_Some (page x.2)) xs2 ∧
    out = Js.sort newest_first (map normalize (Js.slice0 (pages xs2) limit)).
Proof.
  intros Hrun Hlog.
  pose proof (fetchLatestReviews_exchanges upstream env limit accountId locationId st xs)
    as Hxs. simpl in Hxs. rewrite Hrun in Hxs. specialize (Hxs Hlog). simpl in Hxs.
  destruct (secrets_present env); [|by destruct Hxs].
  destruct Hxs as (xs2 & -> & Hrest).
  destruct (token_of _) as [tok|e]; [|by destruct Hrest].
  destruct (bad_ids accountId locationId); [by destruct Hrest|].
  destruct Hrest as (Htrace & _ & _ & Hout).
  destruct (outcome_of [] xs2) as [all|e] eqn:Hall; [|done].
  apply outcome_of_Return in Hall as [-> Hpages]. injection Hout as ->.
  eexists _, xs2. split; [done|]. split; [|done].
  apply loop_trace_requests in Htrace.
  rewrite Forall_forall in *. intros x Hx. split; auto.
Qed.

End RequestFacts.

Section BudgetFacts.
Context `{Platform} {W : Type} (upstream : W → Request → Reply * W).

(** The handler leaves the state as it was, or runs the pipeline. *)
Lemma fetch_cases request env st :
  let r := fetchLatestReviews upstream env (request_limit request)
             (request_accountId request env) (request_locationId request env) st in
  fetch upstream request env st = (corsResponse NoBody env 204 [], st) ∨
  fetch upstream request env st =
    (corsResponse (PlainText "Not found") env 404
       [("Content-Type", "text/plain; charset=utf-8")], st) ∨
  fetch upstream request env st = (respond env r.1, r.2).
Proof.
  simpl. unfold fetch.
  destruct (String.eqb (method request) "OPTIONS"); [by left|].
  destruct (String.eqb (pathname request) "/reviews"); [|by right; left].
  right. right. by destruct (fetchLatestReviews _ _ _ _ _ _) as [[out|e] st'].
Qed.

Lemma log_unchanged (st : State W) xs : log st = log st ++ xs → xs = [].
Proof.
  intros Hlog. apply (app_inv_head (log st)). by rewrite app_nil_r.
Qed.

(** X14. One inbound request causes at most one more outbound request
    than its effective limit, so at most 51: the first, if there is one,
    is the token request built from the environment, and every later one
    is a listing request for 1 to 50 reviews. *)
Theorem fetch_request_budget (request : HttpRequest) (env : Env) (st : State W)
    (xs : list (Request * Reply)) :
  log (fetch upstream request env st).2 = log st ++ xs →
  (length xs ≤ 1 + Z.to_nat (request_limit request))%nat ∧
  (length xs ≤ 51)%nat ∧
  ∀ i rq rp,
    xs !! i = Some (rq, rp) →
    match i with
    | O => rq = token_request env
    | S _ =>
        ∃ a l pageSize pageToken bearer,
          rq = ListRequest a l pageSize pageToken bearer ∧ 1 ≤ pageSize ≤ 50
    end.
Proof.
  pose proof (request_limit_range request) as Hlimit.
  destruct (fetch_cases request env st) as [-> | [-> | ->]]; simpl.
  1,2: intros ->%log_unchanged; split; [simpl; lia|]; split; [simpl; lia|done].
  intros Hlog.
  pose proof (fetchLatestReviews_exchanges upstream env _ _ _ st xs Hlog) as Hxs.
  simpl in Hxs.
  destruct (secrets_present env);
    [|destruct Hxs as [-> _]; split; [simpl; lia|]; split; [simpl; lia|done]].
  destruct Hxs as (xs2 & -> & Hrest).
  assert (∃ accessToken,
    (length xs2 ≤ Z.to_nat (request_limit request))%nat ∧
    ∀ rq rp, (rq, rp) ∈ xs2 →
      ∃ pageSize pageToken,
        rq = ListRequest (default "" (request_accountId request env))
               (default "" (request_locationId request env)) pageSize pageToken
               accessToken ∧ 1 ≤ pageSize ≤ 50) as (accessToken & Hlen & Hreqs).
  { destruct (token_of _) as [accessToken|e];
      [|destruct Hrest as [-> _]; exists ""; split; [simpl; lia|set_solver]].
    exists accessToken.
    destruct (bad_ids _ _); [destruct Hrest as [-> _]; split; [simpl; lia|set_solver]|].
    destruct Hrest as (Htrace & _). split.
    - apply loop_trace_length in Htrace. lia.
    - intros rq rp Hin. by eapply loop_trace_all_requests. }
  split; [simpl; lia|]. split; [simpl; lia|].
  intros [|i] rq rp; simpl; [by intros [= <- _]|].
  intros Hin%list_elem_of_lookup_2. destruct (Hreqs _ _ Hin) as (ps & pt & -> & Hps).
  by eexists _, _, ps, pt, _.
Qed.

(** X15. With an upstream whose pages hold as many reviews as were asked
    for, a response with reviews carries exactly as many as the effective
    limit, and the handler has issued two requests for it: the token
    request and one listing request. *)
Theorem fetch_full_page (request : HttpRequest) (env : Env) (st : State W)
    (reviews : list Review) :
  normal upstream →
  resp_body (fetch upstream request env st).1 = JsonReviews reviews →
  Z.of_nat (length reviews) = request_limit request ∧
  ∃ rp0 rq rp,
    log (fetch upstream request env st).2 = log st ++ [(token_request env, rp0); (rq, rp)] ∧
    is_list_request rq = true.
Proof.
  intros Hnormal. pose proof (request_limit_range request) as Hlimit.
  destruct (fetch_cases request env st) as [-> | [-> | ->]]; simpl; [done..|].
  set (limit := request_limit request) in *.
  set (accountId := request_accountId request env).
  set (locationId := request_locationId request env).
  destruct (fetchLatestReviews_log upstream env limit accountId locationId st)
    as (xs & Hlog & _).
  pose proof (fetchLatestReviews_exchanges upstream env limit accountId locationId st xs Hlog)
    as Hxs. simpl in Hxs. rewrite Hlog.
  destruct (fetchLatestReviews _ _ _ _ _ _).1 as [out|e]; simpl; [|done].
  intros [= ->].
  destruct (secrets_present env); [|by destruct Hxs].
  destruct Hxs as (xs2 & -> & Hrest).
  destruct (token_of _) as [accessToken|e]; [|by destruct Hrest].
  destruct (bad_ids accountId locationId); [by destruct Hrest|].
  destruct Hrest as (Htrace & Hans & _ & Hout).
  destruct (outcome_of [] xs2) as [all|e] eqn:Hall; [|done].
  apply outcome_of_Return in Hall as [-> Hpages]. injection Hout as ->.
  destruct xs2 as [|[rq rp] rest]; simpl in Htrace; [lia|].
  destruct Htrace as (_ & [pt ->] & Hrest).
  apply Forall_cons in Hpages as [[[rs next] Hpage] _]. simpl in Hpage.
  apply (answered_by_full_pages upstream _ Hnormal) in Hans.
  apply Forall_cons in Hans as [Hfull _].
  specialize (Hfull _ _ _ _ _ rs next eq_refl ltac:(lia) Hpage).
  rewrite (delivered_list _ _ _ _ _ _ _ _ Hpage) in Hrest.
  assert (rest = []) as ->.
  { destruct (asks_for_more rp); [|done].
    destruct rest as [|[rq2 rp2] rest]; [done|]. simpl in Hrest. lia. }
  split; [|by eexists _, _, _].
  change newest_first with (descending epoch).
  rewrite sort_length, length_map. unfold pages. simpl. rewrite Hpage, app_nil_r.
  rewrite slice0_all; lia.
Qed.

End BudgetFacts.

(** ** The further properties on concrete runs *)

(** An answer of the token endpoint that refuses the refresh token, and an
    answer of the listing endpoint that is out of service. *)
Definition unauthorized : Response :=
  {| status := 401; body_text := "denied"; body_json := SyntaxError "not JSON" |}.

Definition unavailable : Response :=
  {| status := 503; body_text := "down"; body_json := SyntaxError "not JSON" |}.


Section FurtherRuns.
Import Fragment.
Local Existing Instance platform.

(** "75" is clamped to 50, "-3" to 1, and "7" is kept. *)
Lemma clampInt_saturates_witness :
  clampInt "75" 1 50 = 50 ∧ clampInt "-3" 1 50 = 1 ∧ clampInt "7" 1 50 = 7.
Proof.
  split; [|split].
  - apply (proj1 (clampInt_saturates (H := platform) "75" 1 50 75 ltac:(lia) ltac:(reflexivity))).
    unfold Qle. simpl. lia.
  - apply (proj1 (proj2 (clampInt_saturates (H := platform) "-3" 1 50 (-3) ltac:(lia)
                           ltac:(reflexivity)))).
    unfold Qle. simpl. lia.
  - apply (proj2 (proj2 (clampInt_saturates (H := platform) "7" 1 50 7 ltac:(lia)
                           ltac:(reflexivity))) 7 eq_refl).
    lia.
Defined.

(** Half a second before 1970 is epoch -1. *)
Lemma normalize_time_floor_witness :
  time (normalize (review "y" (Some "1969-12-31T23:59:59.500Z"))) = Js.At (-1).
Proof.
  destruct (normalize_time_floor (H := platform) (review "y" (Some "1969-12-31T23:59:59.500Z"))
              "1969-12-31T23:59:59.500Z" (-500) eq_refl ltac:(discriminate) eq_refl)
    as (t & Ht & Hms).
  rewrite Ht. f_equal. lia.
Defined.

(** A refused token refresh and a failed listing have different messages,
    whatever their statuses and texts. *)
Lemma message_thrower_witness :
  thrower (TokenRefreshFailed 401 "denied") = Some ByTokenRefreshFailed ∧
  thrower (ListFailed 503 "down") = Some ByListFailed ∧
  message (TokenRefreshFailed 401 "denied") ≠ message (ListFailed 503 "down").
Proof.
  split; [reflexivity|]. split; [reflexivity|]. intros Heq.
  pose proof (message_thrower (TokenRefreshFailed 401 "denied") (ListFailed 503 "down")
                _ _ eq_refl eq_refl Heq) as Hsame.
  discriminate Hsame.
Defined.

(** The token of the script is returned after one exchange. *)
Lemma getAccessToken_Return_witness :
  let r := getAccessToken scripted env (start one_page) in
  r = (Return "tok", r.2) ∧
  r.2 = after_exchange scripted (start one_page) (token_request env).
Proof.
  intros r.
  assert (r = (Return "tok", r.2)) as Hrun by (vm_compute; reflexivity).
  split; [exact Hrun|].
  exact (proj1 (proj2 (getAccessToken_Return scripted env (start one_page) r.2 "tok" Hrun))).
Defined.

(** A token endpoint that answers 401 gives a 500 that says so. *)
Lemma token_refused_witness :
  let request := get_reviews [] in
  let st := start [Responds unauthorized] in
  method request ≠ "OPTIONS" ∧
  (fetch scripted request env st).1 =
    corsResponse (JsonError "OAuth token refresh failed: 401 denied") env 500
      [("Content-Type", "application/json; charset=utf-8")] ∧
  log (fetch scripted request env st).2 = [(token_request env, Responds unauthorized)].
Proof.
  intros request st.
  assert (method request ≠ "OPTIONS") as Hm by discriminate.
  split; [exact Hm|].
  destruct (token_refused scripted request env st unauthorized Hm eq_refl eq_refl
              eq_refl eq_refl) as [Hfetch Hlog].
  split; [exact (f_equal fst Hfetch)|exact Hlog].
Defined.



(** A listing endpoint that answers 503 ends the pipeline with the listing
    error. *)
Lemma list_failure_aborts_witness :
  let st := start [token_reply "tok"; Responds unavailable] in
  let rq := ListRequest "123" "456" 3 None "tok" in
  let xs := [(token_request env, token_reply "tok"); (rq, Responds unavailable)] in
  log (fetchLatestReviews scripted env 3 (Some "123") (Some "456") st).2 = log st ++ xs ∧
  (fetchLatestReviews scripted env 3 (Some "123") (Some "456") st).1 =
    Throw (ListFailed 503 "down").
Proof.
  intros st rq xs.
  assert (log (fetchLatestReviews scripted env 3 (Some "123") (Some "456") st).2 =
          log st ++ xs) as Hlog by (vm_compute; reflexivity).
  split; [exact Hlog|].
  exact (proj2 (list_failure_aborts scripted env 3 (Some "123") (Some "456") st xs
                  [(token_request env, token_reply "tok")] [] rq unavailable
                  Hlog eq_refl eq_refl eq_refl)).
Defined.

(** On the page of five, the result is computed from that page. *)
Lemma returned_reviews_from_pages_witness :
  let st := start one_page in
  let r := fetchLatestReviews scripted env 3 (Some "123") (Some "456") st in
  let out := default [] (returned r.1) in
  let xs := [ (token_request env, token_reply "tok");
              (ListRequest "123" "456" 3 None "tok", page_reply five None) ] in
  r = (Return out, r.2) ∧ log r.2 = log st ++ xs ∧
  out = Js.sort newest_first (map normalize (Js.slice0 five 3)).
Proof.
  intros st r out xs.
  assert (r = (Return out, r.2)) as Hrun by (vm_compute; reflexivity).
  assert (log r.2 = log st ++ xs) as Hlog by (vm_compute; reflexivity).
  split; [exact Hrun|]. split; [exact Hlog|].
  destruct (returned_reviews_from_pages scripted env 3 (Some "123") (Some "456")
              st r.2 xs out Hrun Hlog) as (rp0 & xs2 & Hxs & _ & Hout).
  injection Hxs as _ <-. exact Hout.
Defined.

(** One request for the page of five causes two outbound requests. *)
Lemma fetch_request_budget_witness :
  let st := start one_page in
  let xs := [ (token_request env, token_reply "tok");
              (ListRequest "123" "456" 10 None "tok", page_reply five None) ] in
  log (fetch scripted (get_reviews []) env st).2 = log st ++ xs ∧
  (length xs ≤ 51)%nat.
Proof.
  intros st xs.
  assert (log (fetch scripted (get_reviews []) env st).2 = log st ++ xs) as Hlog
    by (vm_compute; reflexivity).
  split; [exact Hlog|].
  exact (proj1 (proj2 (fetch_request_budget scripted (get_reviews []) env st xs Hlog))).
Defined.

(** With full pages, [limit=3] gives three reviews. *)
Lemma fetch_full_page_witness :
  let result := fetch full_pages (get_reviews [("limit", "3")]) env
                  {| world := (); log := [] |} in
  normal full_pages ∧
  ∃ reviews, resp_body result.1 = JsonReviews reviews ∧ Z.of_nat (length reviews) = 3.
Proof.
  intros result. split; [exact full_pages_normal|].
  eexists. split; [vm_compute; reflexivity|].
  refine (proj1 (fetch_full_page full_pages (get_reviews [("limit", "3")]) env
                   {| world := (); log := [] |} _ full_pages_normal _)).
  vm_compute. reflexivity.
Defined.

End FurtherRuns.
